(** * File matching and conflict resolution of write_description_metadata

    A shallow embedding of [select_preferred_path] and [find_matching_files]
    from [write_description_metadata/write_description_metadata.py], and the
    properties of the priority resolver and of the directory scan.

    Conventions of the embedding
    - Python [str] is [string]; [str.lower] maps the ASCII capitals and leaves
      every other character alone (no character outside ASCII lowers to a
      character of a recognised extension).
    - A [pathlib.Path] is its root and the list of its components; [suffix]
      and [stem] follow pathlib's definition by [rfind] of the dot in the
      final component (Python 3.12 and 3.13, the first versions that have
      [Path.walk]).
    - Python [int] is [Z].
    - The module constants are [gset string] and [gmap string Z].
    - Objects live in a store: the [images] argument is a reference to a
      dict whose values are references to [Image] records, so that in-place
      mutation, identity and aliasing are those of the program.
    - [click.echo], [print] and [click.secho (err=True)] append an event to
      the output of the state; colours and line ends are dropped.
    - Exceptions are the left summand of the result; the state reached when
      the exception was raised is kept next to it. *)

From Stdlib Require Import ZArith Ascii String List.
From stdpp Require Import base tactics option list gmap strings pretty.

Local Open Scope string_scope.
Local Open Scope Z_scope.

Set Warnings "-register-all,-clear-no-such-hyp".

(** ** Strings *)

Module Str.

(** [str.lower] on one character. *)
Definition lower_ascii (c : ascii) : ascii :=
  let n := nat_of_ascii c in
  if ((65 <=? n) && (n <=? 90))%nat then ascii_of_nat (n + 32) else c.

(** [str.lower]. *)
Fixpoint lower (s : string) : string :=
  match s with
  | EmptyString => EmptyString
  | String c s' => String (lower_ascii c) (lower s')
  end.

(** [s.rfind(c)]: the highest index of [c] in [s], or [-1]. *)
Fixpoint rfind (c : ascii) (s : string) : Z :=
  match s with
  | EmptyString => -1
  | String a s' =>
      let r := rfind c s' in
      if 0 <=? r then r + 1
      else if bool_decide (a = c) then 0 else -1
  end.

(** The line feed. *)
Definition nl : string := String (ascii_of_nat 10) EmptyString.

(** [len(s)]. *)
Definition len (s : string) : Z := Z.of_nat (String.length s).

(** The slices [s[i:]] and [s[:i]] for [0 <= i]. *)
Fixpoint slice_from (i : nat) (s : string) : string :=
  match i, s with
  | O, _ => s
  | S i', String _ s' => slice_from i' s'
  | S _, EmptyString => EmptyString
  end.

Fixpoint slice_to (i : nat) (s : string) : string :=
  match i, s with
  | O, _ => EmptyString
  | S i', String a s' => String a (slice_to i' s')
  | S _, EmptyString => EmptyString
  end.

(** [sep.join(l)]. *)
Fixpoint join (sep : string) (l : list string) : string :=
  match l with
  | [] => EmptyString
  | [x] => x
  | x :: l' => x +:+ sep +:+ join sep l'
  end.

(** [needle in s] for strings. *)
Fixpoint is_prefix (p s : string) : bool :=
  match p, s with
  | EmptyString, _ => true
  | String a p', String b s' => bool_decide (a = b) && is_prefix p' s'
  | String _ _, EmptyString => false
  end.

Fixpoint contains (needle s : string) : bool :=
  is_prefix needle s ||
  match s with
  | EmptyString => false
  | String _ s' => contains needle s'
  end.

End Str.

(** ** Paths *)

(** A [pathlib] path: its root (empty for a relative path) and its
    components. *)
Record Path : Type := mkPath { root : string; tail : list string }.

Global Instance Path_eq_dec : EqDecision Path.
Proof. solve_decision. Defined.

Module PathOps.

(** [Path(name)] for a plain directory entry [name]. *)
Definition of_name (n : string) : Path := mkPath EmptyString [n].

(** [p.name]: the final component, the empty string when there is none. *)
Definition name (p : Path) : string := List.last (tail p) EmptyString.

(** [p.suffix]. *)
Definition suffix (p : Path) : string :=
  let n := name p in
  let i := Str.rfind "." n in
  if (0 <? i) && (i <? Str.len n - 1) then Str.slice_from (Z.to_nat i) n
  else EmptyString.

(** [p.stem]. *)
Definition stem (p : Path) : string :=
  let n := name p in
  let i := Str.rfind "." n in
  if (0 <? i) && (i <? Str.len n - 1) then Str.slice_to (Z.to_nat i) n
  else n.

(** [p / n] for a plain directory entry [n]. *)
Definition div (p : Path) (n : string) : Path :=
  mkPath (root p) (tail p ++ [n]).

(** [str(p)]. *)
Definition str (p : Path) : string :=
  let body := Str.join "/" (tail p) in
  if bool_decide (root p = EmptyString) then
    (if bool_decide (body = EmptyString) then "." else body)
  else root p +:+ body.

(** [f"{p}"] for [p : Path | None]. *)
Definition fmt (p : option Path) : string :=
  match p with
  | Some q => str q
  | None => "None"
  end.

End PathOps.

Infix "//" := PathOps.div (at level 40, left associativity).

(** ** Module constants *)

Definition XMP_TYPES : gset string := {[ ".xmp" ]}.
Definition RAW_TYPES : gset string :=
  {[ ".arw"; ".cr2"; ".dng"; ".raf"; ".nef" ]}.
Definition JPG_TYPES : gset string := {[ ".jpg"; ".jpeg"; ".heic" ]}.
Definition ALL_AVAILABLE_TYPES : gset string :=
  XMP_TYPES ∪ RAW_TYPES ∪ JPG_TYPES.

(** [{**{ext: 3 ...}, **{ext: 2 ...}, **{ext: 1 ...}}]: a later entry
    replaces an earlier one, and the union of maps prefers its left side. *)
Definition TYPE_PRIORITIES : gmap string Z :=
  gset_to_gmap 1 JPG_TYPES ∪ (gset_to_gmap 2 RAW_TYPES ∪ gset_to_gmap 3 XMP_TYPES).

(** ** Store, output and exceptions *)

Definition loc : Type := positive.

Record Image : Type := mkImage {
  line_no : Z;
  input_file_path : Path;
  input_desc : string;
  found_file_path : option Path
}.

Inductive event : Type :=
  | Stdout (msg : string)
  | Stderr (msg : string).

Inductive exn : Type :=
  | ValueError (msg : string)
  | KeyError (key : string)
  | AttributeError
  | SystemExit (code : Z).

Global Instance event_eq_dec : EqDecision event.
Proof. solve_decision. Defined.

Global Instance exn_eq_dec : EqDecision exn.
Proof. solve_decision. Defined.

(** The state a call runs in: the dict objects, the [Image] objects, the
    output so far, and the local counter [scanned] of the scan. *)
Record State : Type := mkState {
  dicts : gmap loc (gmap string loc);
  objs : gmap loc Image;
  out : list event;
  scanned : Z
}.

Definition set_objs (o : gmap loc Image) (st : State) : State :=
  mkState (dicts st) o (out st) (scanned st).
Definition set_out (o : list event) (st : State) : State :=
  mkState (dicts st) (objs st) o (scanned st).
Definition set_scanned (n : Z) (st : State) : State :=
  mkState (dicts st) (objs st) (out st) n.

(** A computation: from a state to the state it stops in and either the
    exception it raised or its value. *)
Definition M (A : Type) : Type := State → State * (exn + A).

Definition ret {A} (a : A) : M A := λ st, (st, inr a).

Definition bind {A B} (m : M A) (k : A → M B) : M B :=
  λ st, match m st with
        | (st', inr a) => k a st'
        | (st', inl e) => (st', inl e)
        end.

Definition raise {A} (e : exn) : M A := λ st, (st, inl e).

Declare Scope py_scope.
Delimit Scope py_scope with py.
Notation "x <- c1 ;; c2" := (bind c1 (λ x, c2))
  (at level 100, c1 at next level, right associativity) : py_scope.
Notation "c1 ;; c2" := (bind c1 (λ _, c2))
  (at level 100, right associativity) : py_scope.

(** [click.echo(msg)] and [print(msg)]. *)
Definition echo (msg : string) : M unit :=
  λ st, (set_out (out st ++ [Stdout msg]) st, inr tt).

(** [click.secho(msg, fg="red", err=True)]. *)
Definition secho_err (msg : string) : M unit :=
  λ st, (set_out (out st ++ [Stderr msg]) st, inr tt).

(** [TYPE_PRIORITIES[key]]. *)
Definition priority_of (key : string) : M Z :=
  match TYPE_PRIORITIES !! key with
  | Some n => ret n
  | None => raise (KeyError key)
  end.

(** [for x in l: body(x)]; an exception ends the loop. *)
Fixpoint for_ {A} (l : list A) (body : A → M unit) : M unit :=
  match l with
  | [] => ret tt
  | x :: l' => (body x ;; for_ l' body)%py
  end.

(** ** The priority resolver *)

Import PathOps.

(** The f-strings of the resolver. *)
Definition unavailable_message (new_path : Path) : string :=
  "Unavailable file type: " +:+ str new_path.

Definition same_rank_message (cur_path new_path : Path) : string :=
  "Comparing two files of same rank:" +:+ Str.nl +:+ "  " +:+ str cur_path
  +:+ Str.nl +:+ "  " +:+ str new_path.

Definition found_message (new_path : Path) : string :=
  "Found " +:+ stem new_path +:+ " -> " +:+ str new_path.

Definition conflict_message (cur_path : option Path) (new_path : Path) : string :=
  "Found both a jpg type and raw/xmp type for " +:+ stem new_path
  +:+ ", will not write to both:" +:+ Str.nl +:+ "  " +:+ fmt cur_path
  +:+ Str.nl +:+ "  " +:+ str new_path.

Definition updating_message (new_path : Path) : string :=
  "Updating " +:+ stem new_path +:+ " -> " +:+ str new_path.

(** [select_preferred_path(cur_path, new_path)]. A [Path] is always true,
    so that [if cur_path and new_path] is the test that [cur_path] is not
    [None]; the last [return cur_path] returns the argument as it is, hence
    the option in the result. *)
Definition select_preferred_path (cur_path : option Path) (new_path : Path)
  : M (option Path) :=
  (if bool_decide (Str.lower (suffix new_path) ∉ ALL_AVAILABLE_TYPES) then
     raise (ValueError (unavailable_message new_path))
   else
     (match cur_path with
      | Some cur =>
          let combined_suffix_set : gset string :=
            {[ Str.lower (suffix cur); Str.lower (suffix new_path) ]} in
          if bool_decide (combined_suffix_set ⊆ RAW_TYPES)
             || bool_decide (combined_suffix_set ⊆ JPG_TYPES)
             || bool_decide (combined_suffix_set ⊆ XMP_TYPES)
          then
            raise (ValueError (same_rank_message cur new_path))
          else ret tt
      | None => ret tt
      end) ;;
     cur_path_priority <-
       match cur_path with
       | Some cur => priority_of (Str.lower (suffix cur))
       | None => ret 0
       end ;;
     new_path_priority <- priority_of (Str.lower (suffix new_path)) ;;
     if cur_path_priority =? 0 then
       echo (found_message new_path) ;;
       ret (Some new_path)
     else if (cur_path_priority =? 1) || (new_path_priority =? 1) then
       secho_err (conflict_message cur_path new_path) ;;
       raise (SystemExit 1)
     else if new_path_priority >? cur_path_priority then
       echo (updating_message new_path) ;;
       ret (Some new_path)
     else ret cur_path)%py.

(** ** The directory tree and [Path.walk] *)

(** A directory: the names of its entries that are not directories, and its
    subdirectories by name, both in the order the listing gives them. *)
Inductive Tree : Type :=
  | Dir (files : list string) (subdirs : list (string * Tree)).

(** [Path.walk()], top down: a directory is yielded before its
    subdirectories, and each subdirectory is descended into in the order of
    the list the caller was given and has pruned in place; [keep] is the
    caller's pruning of that list. The frames are (current_dir, files). *)
Fixpoint walk (keep : string → bool) (current_dir : Path) (t : Tree)
  : list (Path * list string) :=
  match t with
  | Dir files subdirs =>
      (current_dir, files) ::
      (fix descend (ds : list (string * Tree)) : list (Path * list string) :=
         match ds with
         | [] => []
         | (d, sub) :: ds' =>
             ((if keep d then walk keep (current_dir // d) sub else [])
              ++ descend ds')%list
         end) subdirs
  end.

(** ** The scan *)

Definition ignore_dirs : gset string := {[ "CaptureOne" ]}.

(** [subdirs[:] = [d for d in subdirs if d not in ignore_dirs]]. *)
Definition keep_dir (d : string) : bool := bool_decide (d ∉ ignore_dirs).

(** [key in images.keys()]. *)
Definition dict_has (images : loc) (key : string) : M bool :=
  λ st, match dicts st !! images with
        | Some d => (st, inr (bool_decide (key ∈ dom d)))
        | None => (st, inl AttributeError)
        end.

(** [images[key]]. *)
Definition dict_get (images : loc) (key : string) : M loc :=
  λ st, match dicts st !! images with
        | Some d =>
            match d !! key with
            | Some l => (st, inr l)
            | None => (st, inl (KeyError key))
            end
        | None => (st, inl AttributeError)
        end.

(** [rec.found_file_path]. *)
Definition get_found (rec : loc) : M (option Path) :=
  λ st, match objs st !! rec with
        | Some img => (st, inr (found_file_path img))
        | None => (st, inl AttributeError)
        end.

Definition with_found (v : option Path) (img : Image) : Image :=
  mkImage (line_no img) (input_file_path img) (input_desc img) v.

(** [rec.found_file_path = v]. *)
Definition set_found (rec : loc) (v : option Path) : M unit :=
  λ st, match objs st !! rec with
        | Some img => (set_objs (<[rec := with_found v img]> (objs st)) st, inr tt)
        | None => (st, inl AttributeError)
        end.

(** [file_type_filter]. *)
Definition file_type_filter (ignore_jpg : bool) : gset string :=
  if ignore_jpg then ALL_AVAILABLE_TYPES ∖ JPG_TYPES else ALL_AVAILABLE_TYPES.

(** The f-strings of the scan. *)
Definition abort_message (max_scan_items : Z) : string :=
  "Aborted after scanning " +:+ pretty max_scan_items +:+ " files.".

Definition skipping_message (file : Path) : string :=
  "Skipping unavailable type " +:+ str file.

Section Scanner.

(** The function the global name [select_preferred_path] is bound to when
    the scan calls it. *)
Variable resolver : option Path → Path → M (option Path).

Variable images : loc.
Variable ignore_jpg : bool.
Variable max_scan_items : Z.

(** The body of [for file in files]. *)
Definition scan_file_with (current_dir : Path) (file : string) : M unit :=
  (let file := of_name file in
   (λ st, (set_scanned (scanned st + 1) st, inr tt)) ;;
   n <- (λ st, (st, inr (scanned st))) ;;
   if n >? max_scan_items then
     secho_err (abort_message max_scan_items) ;;
     raise (SystemExit 1)
   else if bool_decide (Str.lower (suffix file) ∉ file_type_filter ignore_jpg)
   then echo (skipping_message file)
   else
     known <- dict_has images (stem file) ;;
     if negb known then ret tt
     else
       rec <- dict_get images (stem file) ;;
       cur_path <- get_found rec ;;
       let new_path := current_dir // name file in
       chosen <- resolver cur_path new_path ;;
       rec' <- dict_get images (stem file) ;;
       set_found rec' chosen)%py.

(** The two loops over the frames of the walk. *)
Definition scan_frames_with (frames : list (Path * list string)) : M unit :=
  for_ frames (λ '(current_dir, files),
    for_ files (scan_file_with current_dir)).

(** The scan as one loop over the visited files. *)
Definition scan_visits_with (vs : list (Path * string)) : M unit :=
  for_ vs (λ v, scan_file_with v.1 v.2).

Definition find_matching_files_with (search_dir : Path) (fs : Tree) : M loc :=
  ((λ st, (set_scanned 0 st, inr tt)) ;;
   scan_frames_with (walk keep_dir search_dir fs) ;;
   ret images)%py.

End Scanner.

Definition scan_file := scan_file_with select_preferred_path.
Definition scan_frames := scan_frames_with select_preferred_path.

(** [find_matching_files(search_dir, images, ignore_jpg, max_scan_items)],
    with the directory tree [fs] found at [search_dir]. *)
Definition find_matching_files
  (search_dir : Path) (fs : Tree) (images : loc) (ignore_jpg : bool)
  (max_scan_items : Z) : M loc :=
  find_matching_files_with select_preferred_path images ignore_jpg
    max_scan_items search_dir fs.

(** ** Test fixtures *)

Module Fixture.

Definition images_template : State :=
  mkState
    {[ 1%positive :=
         {[ "IMG_0001" := 2%positive; "IMG_0002" := 3%positive;
            "IMG_0003" := 4%positive ]} ]}
    {[ 2%positive := mkImage 1 (of_name "IMG_0001.ARW") "Description for 01 arw" None;
       3%positive := mkImage 2 (of_name "IMG_0002.JPG") "Description for 02 jpg" None;
       4%positive := mkImage 1 (of_name "IMG_0003.HEIC") "Description for 03 heic" None ]}
    [] 0.

Definition photos : Path := mkPath "/" ["tmp"; "photos"].

(** The tree of [test_standard_matching]. *)
Definition standard_tree : Tree :=
  Dir ["title-image-IMG_0001.JPG"]
    [("Selects",
      Dir ["IMG_0001.ARW"; "IMG_0001.XMP"; "IMG_0002.JPG"]
        [("CaptureOne", Dir ["proxy_IMG_0001.JPG"; "proxy_IMG_0002.JPG"] [])])].

(** The tree of [test_skip_captureone_dirs]. *)
Definition captureone_tree : Tree :=
  Dir ["IMG_0001.ARW"] [("CaptureOne", Dir ["IMG_0001.ARW"; "IMG_0002.JPG"] [])].

Definition empty : State := mkState ∅ ∅ [] 0.

(** The paths of [test_select_preferred_path.py]. *)
Definition raw_path : Path := mkPath EmptyString ["Selects"; "IMG_0001.ARW"].
Definition xmp_path : Path := mkPath EmptyString ["Selects"; "IMG_0001.XMP"].
Definition jpg_path : Path := mkPath EmptyString ["Selects"; "IMG_0001.JPG"].
Definition heic_path : Path := mkPath EmptyString ["Selects"; "IMG_0001.HEIC"].
Definition txt_path : Path := mkPath EmptyString ["wrong-type.txt"].

(** The tree of [test_max_scan_items]. *)
Definition five_files : Tree :=
  Dir ["file1.JPG"; "file2.JPG"; "file3.JPG"; "file4.JPG"; "file5.JPG"] [].

(** The scan of [test_max_scan_items]: five files, a budget of four. *)
Definition five_files_result : State * (exn + loc) :=
  find_matching_files photos five_files 1%positive false 4 images_template.

End Fixture.

(** ** File-type classes *)

Inductive FileClass : Type := XMP | RAW | RASTER.

Global Instance FileClass_eq_dec : EqDecision FileClass.
Proof. solve_decision. Defined.

Definition types_of (k : FileClass) : gset string :=
  match k with
  | XMP => XMP_TYPES
  | RAW => RAW_TYPES
  | RASTER => JPG_TYPES
  end.

(** The extension a path is classified by. *)
Definition ext (p : Path) : string := Str.lower (suffix p).

Definition has_class (p : Path) (k : FileClass) : Prop := ext p ∈ types_of k.

Global Instance has_class_dec p k : Decision (has_class p k).
Proof. unfold has_class. apply _. Defined.

(** ** Definitions used by the statements *)

(** The priority [TYPE_PRIORITIES] gives to the extensions of a class. *)
Definition rank (k : FileClass) : Z :=
  match k with
  | XMP => 3
  | RAW => 2
  | RASTER => 1
  end.

(** The test of the resolver for a same-rank pair. *)
Definition same_rank (a b : string) : bool :=
  bool_decide (({[ a; b ]} : gset string) ⊆ RAW_TYPES)
  || bool_decide (({[ a; b ]} : gset string) ⊆ JPG_TYPES)
  || bool_decide (({[ a; b ]} : gset string) ⊆ XMP_TYPES).

(** The resolver reads nothing of the state and writes only to the output:
    its events and its result are those of a run from the empty state. *)
Definition sel_pure (cur : option Path) (new : Path)
  : list event * (exn + option Path) :=
  let r := select_preferred_path cur new (mkState ∅ ∅ [] 0) in (out r.1, r.2).

Definition sel_events cur new : list event := (sel_pure cur new).1.
Definition sel_result cur new : exn + option Path := (sel_pure cur new).2.

(** The files of the frames, in the order the two loops visit them. *)
Fixpoint visits (frames : list (Path * list string)) : list (Path * string) :=
  match frames with
  | [] => []
  | (current_dir, files) :: frames' =>
      (map (pair current_dir) files ++ visits frames')%list
  end.

Definition scan_visits := scan_visits_with select_preferred_path.

(** The state after the counter was incremented. *)
Definition counted (st : State) : State := set_scanned (scanned st + 1) st.

(** The cases of one step, for the resolver of the program. *)
Inductive step_case images ij max dir file (st : State)
  : State * (exn + unit) → Prop :=
  | step_over_budget :
      max < scanned st + 1 →
      step_case images ij max dir file st
        (set_out (out st ++ [Stderr (abort_message max)]) (counted st),
         inl (SystemExit 1))
  | step_filtered :
      scanned st + 1 ≤ max →
      ext (of_name file) ∉ file_type_filter ij →
      step_case images ij max dir file st
        (set_out (out st ++ [Stdout (skipping_message (of_name file))])
           (counted st), inr tt)
  | step_no_table :
      scanned st + 1 ≤ max →
      ext (of_name file) ∈ file_type_filter ij →
      dicts st !! images = None →
      step_case images ij max dir file st (counted st, inl AttributeError)
  | step_unknown_stem d :
      scanned st + 1 ≤ max →
      ext (of_name file) ∈ file_type_filter ij →
      dicts st !! images = Some d →
      d !! stem (of_name file) = None →
      step_case images ij max dir file st (counted st, inr tt)
  | step_no_record d l :
      scanned st + 1 ≤ max →
      ext (of_name file) ∈ file_type_filter ij →
      dicts st !! images = Some d →
      d !! stem (of_name file) = Some l →
      objs st !! l = None →
      step_case images ij max dir file st (counted st, inl AttributeError)
  | step_conflict d l img e :
      scanned st + 1 ≤ max →
      ext (of_name file) ∈ file_type_filter ij →
      dicts st !! images = Some d →
      d !! stem (of_name file) = Some l →
      objs st !! l = Some img →
      sel_result (found_file_path img) (dir // file) = inl e →
      step_case images ij max dir file st
        (set_out (out st ++ sel_events (found_file_path img) (dir // file))
           (counted st), inl e)
  | step_assign d l img chosen :
      scanned st + 1 ≤ max →
      ext (of_name file) ∈ file_type_filter ij →
      dicts st !! images = Some d →
      d !! stem (of_name file) = Some l →
      objs st !! l = Some img →
      sel_result (found_file_path img) (dir // file) = inr chosen →
      step_case images ij max dir file st
        (set_objs (<[l := with_found chosen img]> (objs st))
           (set_out (out st ++ sel_events (found_file_path img) (dir // file))
              (counted st)), inr tt).

(** Two records with the same input fields. *)
Definition same_static (a b : Image) : Prop :=
  line_no a = line_no b
  ∧ input_file_path a = input_file_path b
  ∧ input_desc a = input_desc b.

(** The dicts are the same and every [Image] object is still there with its
    three input fields. *)
Definition frame (st st' : State) : Prop :=
  dicts st' = dicts st
  ∧ ∀ l, option_Forall2 same_static (objs st !! l) (objs st' !! l).

(** A visited file is a candidate of the record [l] when its type is
    allowed and its stem is a key of [l] in the table. *)
Definition is_candidate (d : gmap string loc) (ignore_jpg : bool) (l : loc)
  (v : Path * string) : bool :=
  bool_decide (ext (of_name v.2) ∈ file_type_filter ignore_jpg)
  && bool_decide (d !! stem (of_name v.2) = Some l).

(** The candidate paths of the record [l], in the order of the visit. *)
Definition candidates d ignore_jpg l (vs : list (Path * string)) : list Path :=
  map (λ v, v.1 // v.2) (List.filter (is_candidate d ignore_jpg l) vs).

(** The selection after the candidates [cs] went through the resolver. *)
Fixpoint track (cur : option Path) (cs : list Path) : exn + option Path :=
  match cs with
  | [] => inr cur
  | c :: cs' =>
      match sel_result cur c with
      | inr chosen => track chosen cs'
      | inl e => inl e
      end
  end.

(** The tree without its directories of an ignored name, at any depth. *)
Fixpoint prune (t : Tree) : Tree :=
  match t with
  | Dir files subdirs =>
      Dir files
        ((fix prune_all (ds : list (string * Tree)) : list (string * Tree) :=
            match ds with
            | [] => []
            | (d, sub) :: ds' =>
                if keep_dir d then (d, prune sub) :: prune_all ds'
                else prune_all ds'
            end) subdirs)
  end.

(** The path [dir] extended by the components [comps]. *)
Definition descend_by (dir : Path) (comps : list string) : Path :=
  mkPath (root dir) (tail dir ++ comps).

(** Every selection is the one the record had or a file of no raster type. *)
Definition no_new_raster (st st' : State) : Prop :=
  ∀ l img', objs st' !! l = Some img' →
    ∃ img, objs st !! l = Some img
           ∧ (found_file_path img' = found_file_path img
              ∨ ∃ p, found_file_path img' = Some p ∧ ext p ∉ JPG_TYPES).

(** Two results of the resolver that differ only in which candidate was
    passed. *)
Definition same_verdict (cur : option Path) (p q : Path)
  (a b : exn + option Path) : Prop :=
  match a, b with
  | inr x, inr y => (x = Some p ∧ y = Some q) ∨ (x = cur ∧ y = cur)
  | inl (ValueError _), inl (ValueError _) => True
  | inl (KeyError k), inl (KeyError k') => k = k'
  | inl AttributeError, inl AttributeError => True
  | inl (SystemExit c), inl (SystemExit c') => c = c'
  | _, _ => False
  end.

(** The message [msg] holds the decimal writing of [n]. *)
Definition message_names (n : Z) (msg : string) : bool :=
  Str.contains (pretty n) msg.

(** The result of a scan reports the value of the counter and the limit:
    some message on the error output holds both numbers. *)
Definition reports_count_and_limit (res : State * (exn + loc)) (max : Z) : Prop :=
  ∃ msg, Stderr msg ∈ out res.1
         ∧ message_names (scanned res.1) msg = true
         ∧ message_names max msg = true.

(** ** Reading the input table *)

Module Text.

(** The ASCII characters [str.strip()] removes. *)
Definition is_space (c : ascii) : bool :=
  let n := nat_of_ascii c in
  ((9 <=? n) && (n <=? 13) || (28 <=? n) && (n <=? 32))%nat.

(** [s.lstrip()]. *)
Fixpoint lstrip (s : string) : string :=
  match s with
  | EmptyString => EmptyString
  | String c s' => if is_space c then lstrip s' else s
  end.

(** [s.rstrip()]. *)
Fixpoint rstrip (s : string) : string :=
  match s with
  | EmptyString => EmptyString
  | String c s' =>
      match rstrip s' with
      | EmptyString => if is_space c then EmptyString else String c EmptyString
      | r => String c r
      end
  end.

(** [s.strip()]. *)
Definition strip (s : string) : string := rstrip (lstrip s).

(** [s.split(sep)] for a separator of one character. *)
Fixpoint split (sep : ascii) (s : string) : list string :=
  match s with
  | EmptyString => [EmptyString]
  | String c s' =>
      if bool_decide (c = sep) then EmptyString :: split sep s'
      else match split sep s' with
           | piece :: pieces => String c piece :: pieces
           | [] => [String c EmptyString]
           end
  end.

(** The tab of ["\t"]. *)
Definition tab : ascii := ascii_of_nat 9.

(** The slash of a POSIX path. *)
Definition slash : ascii := ascii_of_nat 47.

End Text.

(** [posixpath.splitroot(p)]: the root and the rest; two leading slashes,
    and no more, are a root of their own. *)
Definition splitroot (p : string) : string * string :=
  match p with
  | String c1 rest1 =>
      if bool_decide (c1 = Text.slash) then
        match rest1 with
        | String c2 rest2 =>
            if bool_decide (c2 = Text.slash) then
              match rest2 with
              | String c3 _ =>
                  if bool_decide (c3 = Text.slash) then ("/", rest1)
                  else ("//", rest2)
              | EmptyString => ("//", rest2)
              end
            else ("/", rest1)
        | EmptyString => ("/", rest1)
        end
      else (EmptyString, p)
  | EmptyString => (EmptyString, p)
  end.

(** [Path(s)] on a POSIX system: empty and [.] components are dropped. *)
Definition parse_path (s : string) : Path :=
  let '(r, rel) := splitroot s in
  mkPath r
    (List.filter
       (λ x, negb (bool_decide (x = EmptyString)) && negb (bool_decide (x = ".")))
       (Text.split Text.slash rel)).

Definition set_dicts (d : gmap loc (gmap string loc)) (st : State) : State :=
  mkState d (objs st) (out st) (scanned st).

(** A reference no object of the store has. *)
Definition fresh_loc (st : State) : loc :=
  fresh (dom (dicts st) ∪ dom (objs st)).

(** [dict()]. *)
Definition alloc_dict : M loc :=
  λ st, let l := fresh_loc st in (set_dicts (<[l := ∅]> (dicts st)) st, inr l).

(** [Image(line_no=..., input_file_path=..., input_desc=...)]. *)
Definition alloc_image (img : Image) : M loc :=
  λ st, let l := fresh_loc st in (set_objs (<[l := img]> (objs st)) st, inr l).

(** [images[key] = rec]. *)
Definition dict_set (images : loc) (key : string) (rec : loc) : M unit :=
  λ st, match dicts st !! images with
        | Some d => (set_dicts (<[images := <[key := rec]> d]> (dicts st)) st, inr tt)
        | None => (st, inl AttributeError)
        end.

(** [rec.line_no] and [rec.input_file_path]. *)
Definition get_line_no (rec : loc) : M Z :=
  λ st, match objs st !! rec with
        | Some img => (st, inr (line_no img))
        | None => (st, inl AttributeError)
        end.

Definition get_input_file_path (rec : loc) : M Path :=
  λ st, match objs st !! rec with
        | Some img => (st, inr (input_file_path img))
        | None => (st, inl AttributeError)
        end.

(** [try: m except ValueError: handler; raise]. *)
Definition reraise_value_error {A} (m : M A) (handler : M unit) : M A :=
  λ st, match m st with
        | (st', inl (ValueError msg)) =>
            match handler st' with
            | (st'', inr _) => (st'', inl (ValueError msg))
            | (st'', inl e) => (st'', inl e)
            end
        | r => r
        end.

(** [a, b = fields]. *)
Definition unpack_two (fields : list string) : M (string * string) :=
  match fields with
  | [a; b] => ret (a, b)
  | [] => raise (ValueError "not enough values to unpack (expected 2, got 0)")
  | [_] => raise (ValueError "not enough values to unpack (expected 2, got 1)")
  | _ => raise (ValueError "too many values to unpack (expected 2)")
  end.

(** The locals of [process_tsv_input] next to [images]. *)
Record TsvLocals : Type := mkTsv {
  seen_stems : gset string;
  seen_dup_stems : gset string;
  duplicates : list (Z * Path)
}.

Definition parse_error_message (line_no : Z) (line : string) : string :=
  "Error parsing line " +:+ pretty line_no +:+ ": " +:+ line.

Definition duplicate_message (d : Z * Path) : string :=
  "  " +:+ pretty d.1 +:+ ": " +:+ str d.2.

Definition duplicates_header : string :=
  "Duplicate file stems found for the following filenames:".

Definition duplicates_footer : string :=
  "Filenames, excluding file type, must be unique.".

(** The body of [for line_no, line in enumerate(input_descriptions, start=1)]. *)
Definition tsv_line (images : loc) (line_no : Z) (line : string)
  (lv : TsvLocals) : M TsvLocals :=
  (if bool_decide (Text.strip line = EmptyString) then ret lv
   else
     fields <- reraise_value_error
                 (unpack_two (Text.split Text.tab (Text.strip line)))
                 (secho_err (parse_error_message line_no line)) ;;
     let input_file_path := parse_path fields.1 in
     let input_desc := fields.2 in
     let file_stem := stem input_file_path in
     lv' <- (if bool_decide (file_stem ∉ seen_stems lv) then
               ret (mkTsv (seen_stems lv ∪ {[ file_stem ]}) (seen_dup_stems lv)
                      (duplicates lv))
             else
               lv1 <- (if bool_decide (file_stem ∉ seen_dup_stems lv) then
                         first_occurrence <- dict_get images file_stem ;;
                         n <- get_line_no first_occurrence ;;
                         p <- get_input_file_path first_occurrence ;;
                         ret (mkTsv (seen_stems lv)
                                (seen_dup_stems lv ∪ {[ file_stem ]})
                                (duplicates lv ++ [(n, p)]))
                       else ret lv) ;;
               ret (mkTsv (seen_stems lv1) (seen_dup_stems lv1)
                      (duplicates lv1 ++ [(line_no, input_file_path)]))) ;;
     new_image <- alloc_image (mkImage line_no input_file_path input_desc None) ;;
     dict_set images file_stem new_image ;;
     ret lv')%py.

Fixpoint tsv_loop (images : loc) (line_no : Z) (lines : list string)
  (lv : TsvLocals) : M TsvLocals :=
  match lines with
  | [] => ret lv
  | line :: lines' =>
      (lv' <- tsv_line images line_no line lv ;;
       tsv_loop images (line_no + 1) lines' lv')%py
  end.

(** [process_tsv_input(input_descriptions)]. *)
Definition process_tsv_input (input_descriptions : list string) : M loc :=
  (images <- alloc_dict ;;
   lv <- tsv_loop images 1 input_descriptions (mkTsv ∅ ∅ []) ;;
   match duplicates lv with
   | [] => ret images
   | _ :: _ =>
       secho_err duplicates_header ;;
       for_ (duplicates lv) (λ d, secho_err (duplicate_message d)) ;;
       secho_err duplicates_footer ;;
       raise (SystemExit 1)
   end)%py.



(** The entries of the table: line number, path and description. *)
Abbreviation Entry := (Z * Path * string)%type.



(** The fields of a line, as the loop body splits it. *)
Definition line_fields (line : string) : list string :=
  Text.split Text.tab (Text.strip line).

(** A line the loop skips. *)
Definition blank_line (line : string) : Prop := Text.strip line = EmptyString.

(** A line the loop skips or unpacks. *)
Definition well_formed_line (line : string) : Prop :=
  blank_line line ∨ length (line_fields line) = 2%nat.

(** The entry of a line numbered [line_no], if it has one. *)
Definition line_entry (line_no : Z) (line : string) : list Entry :=
  if bool_decide (blank_line line) then []
  else match line_fields line with
       | [a; b] => [(line_no, parse_path a, b)]
       | _ => []
       end.

(** The entries of the lines, numbered from [line_no]. *)
Fixpoint tsv_entries (line_no : Z) (lines : list string) : list Entry :=
  match lines with
  | [] => []
  | line :: lines' =>
      (line_entry line_no line ++ tsv_entries (line_no + 1) lines')%list
  end.






(** A table the scan can read: the dict is in the store and each of its
    values is a record of the store. *)
Definition table_ok (images : loc) (st : State) (d : gmap string loc) : Prop :=
  dicts st !! images = Some d
  ∧ ∀ s l, d !! s = Some l → is_Some (objs st !! l).

(** A selection [f'] that comes after the selection [f]: the same one, or
    an XMP file after a RAW file. *)
Definition selection_after (f f' : option Path) : Prop :=
  f' = f
  ∨ ∃ c p, f = Some c ∧ f' = Some p ∧ has_class c RAW ∧ has_class p XMP.

(** The record [l] goes from selection to selection as [selection_after]
    allows. *)
Definition record_advances (l : loc) (st st' : State) : Prop :=
  ∀ img c, objs st !! l = Some img → found_file_path img = Some c →
    ∃ img', objs st' !! l = Some img'
            ∧ selection_after (found_file_path img) (found_file_path img').

(** ** Inputs of the table tests *)

Module TsvFixture.

(** A line of two fields. *)
Definition row (a b : string) : string := a +:+ String Text.tab b.

(** The input of [test_input_blank_lines]. *)
Definition blank_lines : list string :=
  [EmptyString; row "IMG_0001.ARW" "Description"; EmptyString].

(** The input of [test_input_missing_tabs]. *)
Definition missing_tab : string := "IMG_0001.ARW Description without tab".

(** The input of [test_input_list_all_duplicate_file_stems]. *)
Definition duplicate_lines : list string :=
  [row "IMG_0001.ARW" "Description for image 1";
   row "IMG_0002.JPG" "Description for image 2";
   row "IMG_0003.JPG" "Description for image 3";
   row "IMG_0001.JPG" "Description for image 1, a duplicate";
   row "IMG_0002.ARW" "Description for image 2, a duplicate";
   row "IMG_0002.XMP" "Description for image 2, another duplicate"].


(** The dict of [Fixture.images_template]. *)
Definition table : gmap string loc :=
  {[ "IMG_0001" := 2%positive; "IMG_0002" := 3%positive;
     "IMG_0003" := 4%positive ]}.

(** The scan of [test_standard_matching]. *)
Definition standard_result : State * (exn + loc) :=
  find_matching_files Fixture.photos Fixture.standard_tree 1%positive false 100
    Fixture.images_template.

(** A directory with a RAW file, its XMP file and a second RAW file of the
    same stem, in three orders. *)
Definition xmp_first : Tree :=
  Dir ["IMG_0001.XMP"; "IMG_0001.ARW"; "IMG_0001.DNG"] [].
Definition xmp_between : Tree :=
  Dir ["IMG_0001.ARW"; "IMG_0001.XMP"; "IMG_0001.DNG"] [].
Definition xmp_last : Tree :=
  Dir ["IMG_0001.ARW"; "IMG_0001.DNG"; "IMG_0001.XMP"] [].

End TsvFixture.


(** ** Facts about the constants *)

Lemma elem_XMP s : s ∈ XMP_TYPES ↔ s = ".xmp".
Proof. unfold XMP_TYPES. set_solver. Qed.

Lemma elem_RAW s :
  s ∈ RAW_TYPES ↔ s = ".arw" ∨ s = ".cr2" ∨ s = ".dng" ∨ s = ".raf" ∨ s = ".nef".
Proof. unfold RAW_TYPES. set_solver. Qed.

Lemma elem_JPG s : s ∈ JPG_TYPES ↔ s = ".jpg" ∨ s = ".jpeg" ∨ s = ".heic".
Proof. unfold JPG_TYPES. set_solver. Qed.

Lemma elem_ALL s :
  s ∈ ALL_AVAILABLE_TYPES ↔ s ∈ XMP_TYPES ∨ s ∈ RAW_TYPES ∨ s ∈ JPG_TYPES.
Proof. unfold ALL_AVAILABLE_TYPES. set_solver. Qed.

Lemma elem_ALL_class s : s ∈ ALL_AVAILABLE_TYPES ↔ ∃ k, s ∈ types_of k.
Proof.
  rewrite elem_ALL. split.
  - intros [H | [H | H]]; [by exists XMP | by exists RAW | by exists RASTER].
  - intros [[] H]; simpl in H; auto.
Qed.

Lemma classes_disjoint s k1 k2 : s ∈ types_of k1 → s ∈ types_of k2 → k1 = k2.
Proof.
  destruct k1, k2; simpl; try done;
    rewrite ?elem_XMP, ?elem_RAW, ?elem_JPG; intros H1 H2;
    exfalso; destruct_or?; subst; discriminate.
Qed.

Lemma priority_class s k : s ∈ types_of k → TYPE_PRIORITIES !! s = Some (rank k).
Proof.
  destruct k; simpl; rewrite ?elem_XMP, ?elem_RAW, ?elem_JPG; intros H;
    destruct_or?; subst; vm_compute; reflexivity.
Qed.

Lemma priority_unavailable s : s ∉ ALL_AVAILABLE_TYPES → TYPE_PRIORITIES !! s = None.
Proof.
  rewrite elem_ALL. intros H. unfold TYPE_PRIORITIES.
  rewrite !lookup_union, !lookup_gset_to_gmap.
  rewrite !option_guard_False by tauto. done.
Qed.

Lemma pair_subseteq (a b : string) (X : gset string) :
  ({[ a; b ]} : gset string) ⊆ X ↔ a ∈ X ∧ b ∈ X.
Proof. set_solver. Qed.

Lemma same_rank_true a b :
  same_rank a b = true ↔ ∃ k, a ∈ types_of k ∧ b ∈ types_of k.
Proof.
  unfold same_rank. rewrite !orb_true_iff, !bool_decide_eq_true, !pair_subseteq.
  split.
  - intros [[H | H] | H]; [by exists RAW | by exists RASTER | by exists XMP].
  - intros [[] H]; simpl in H; auto.
Qed.

Lemma same_rank_false a b k1 k2 :
  a ∈ types_of k1 → b ∈ types_of k2 → k1 ≠ k2 → same_rank a b = false.
Proof.
  intros Ha Hb Hne. apply not_true_is_false. rewrite same_rank_true.
  intros (k & Ha' & Hb').
  apply Hne. by rewrite (classes_disjoint _ _ _ Ha Ha'), (classes_disjoint _ _ _ Hb Hb').
Qed.

(** ** The resolver, case by case *)

Lemma set_out_nil st : set_out (out st ++ []) st = st.
Proof. destruct st. unfold set_out. simpl. by rewrite app_nil_r. Qed.

Lemma sel_unavailable cur new st :
  ext new ∉ ALL_AVAILABLE_TYPES →
  select_preferred_path cur new st
  = (st, inl (ValueError (unavailable_message new))).
Proof.
  intros H. unfold select_preferred_path. fold (ext new).
  by rewrite bool_decide_eq_true_2.
Qed.

Lemma sel_first new st :
  ext new ∈ ALL_AVAILABLE_TYPES →
  select_preferred_path None new st
  = (set_out (out st ++ [Stdout (found_message new)]) st, inr (Some new)).
Proof.
  intros H. unfold select_preferred_path. fold (ext new).
  rewrite bool_decide_eq_false_2 by tauto.
  apply elem_ALL_class in H as [k Hk].
  unfold bind, ret, priority_of. simpl. by rewrite (priority_class _ _ Hk).
Qed.

Lemma sel_same_rank cur new st k :
  has_class cur k → has_class new k →
  select_preferred_path (Some cur) new st
  = (st, inl (ValueError (same_rank_message cur new))).
Proof.
  unfold has_class. intros Hc Hn. unfold select_preferred_path.
  fold (ext new) (ext cur).
  rewrite bool_decide_eq_false_2
    by (intros Hx; apply Hx, elem_ALL_class; eauto).
  fold (same_rank (ext cur) (ext new)).
  assert (same_rank (ext cur) (ext new) = true) as ->
    by (apply same_rank_true; eauto).
  done.
Qed.

(** Two recognised files of different classes reach the comparison of
    priorities. *)
Lemma sel_distinct cur new st kc kn :
  has_class cur kc → has_class new kn → kc ≠ kn →
  select_preferred_path (Some cur) new st
  = if (rank kc =? 1) || (rank kn =? 1) then
      (set_out (out st ++ [Stderr (conflict_message (Some cur) new)]) st,
       inl (SystemExit 1))
    else if rank kn >? rank kc then
      (set_out (out st ++ [Stdout (updating_message new)]) st, inr (Some new))
    else (st, inr (Some cur)).
Proof.
  unfold has_class. intros Hc Hn Hne. unfold select_preferred_path.
  fold (ext new) (ext cur).
  rewrite bool_decide_eq_false_2
    by (intros Hx; apply Hx, elem_ALL_class; eauto).
  fold (same_rank (ext cur) (ext new)).
  rewrite (same_rank_false _ _ _ _ Hc Hn Hne).
  unfold bind, ret, priority_of. simpl.
  rewrite (priority_class _ _ Hc), (priority_class _ _ Hn). simpl.
  destruct kc, kn; try done.
Qed.

(** A current selection of unrecognised type is a failed lookup in
    [TYPE_PRIORITIES]. *)
Lemma sel_unknown_current cur new st :
  ext new ∈ ALL_AVAILABLE_TYPES → ext cur ∉ ALL_AVAILABLE_TYPES →
  select_preferred_path (Some cur) new st = (st, inl (KeyError (ext cur))).
Proof.
  intros Hn Hc. unfold select_preferred_path. fold (ext new) (ext cur).
  rewrite bool_decide_eq_false_2 by tauto.
  fold (same_rank (ext cur) (ext new)).
  assert (same_rank (ext cur) (ext new) = false) as ->.
  { apply not_true_is_false. rewrite same_rank_true. intros (k & Hk & _).
    apply Hc, elem_ALL_class. eauto. }
  unfold bind, ret, priority_of. simpl.
  by rewrite (priority_unavailable _ Hc).
Qed.

Lemma class_or_not (p : Path) :
  (∃ k, has_class p k) ∨ ext p ∉ ALL_AVAILABLE_TYPES.
Proof.
  destruct (decide (ext p ∈ ALL_AVAILABLE_TYPES)) as [H | H]; [left | by right].
  by apply elem_ALL_class.
Qed.

Lemma sel_spec cur new st :
  select_preferred_path cur new st
  = (set_out (out st ++ sel_events cur new) st, sel_result cur new).
Proof.
  unfold sel_events, sel_result, sel_pure.
  destruct (class_or_not new) as [[kn Hn] | Hn].
  2: { rewrite !sel_unavailable by done. simpl. by rewrite set_out_nil. }
  assert (ext new ∈ ALL_AVAILABLE_TYPES) as Hn' by (apply elem_ALL_class; eauto).
  destruct cur as [cur |].
  2: { by rewrite !sel_first by done. }
  destruct (class_or_not cur) as [[kc Hc] | Hc].
  2: { rewrite !sel_unknown_current by done. simpl. by rewrite set_out_nil. }
  destruct (decide (kc = kn)) as [-> | Hne].
  { rewrite !(sel_same_rank _ _ _ _ Hc Hn). simpl. by rewrite set_out_nil. }
  rewrite !(sel_distinct _ _ _ _ _ Hc Hn Hne).
  destruct (_ || _); [done |]. destruct (_ >? _); [done |].
  simpl. by rewrite set_out_nil.
Qed.

Lemma sel_result_unavailable cur new :
  ext new ∉ ALL_AVAILABLE_TYPES → ∃ msg, sel_result cur new = inl (ValueError msg).
Proof.
  intros H. unfold sel_result, sel_pure. rewrite sel_unavailable by done. eauto.
Qed.

Lemma sel_result_first new :
  ext new ∈ ALL_AVAILABLE_TYPES → sel_result None new = inr (Some new).
Proof. intros H. unfold sel_result, sel_pure. by rewrite sel_first. Qed.

Lemma sel_result_same_rank cur new k :
  has_class cur k → has_class new k →
  ∃ msg, sel_result (Some cur) new = inl (ValueError msg).
Proof.
  intros Hc Hn. unfold sel_result, sel_pure.
  rewrite (sel_same_rank _ _ _ _ Hc Hn). eauto.
Qed.

Lemma sel_result_distinct cur new kc kn :
  has_class cur kc → has_class new kn → kc ≠ kn →
  sel_result (Some cur) new
  = if (rank kc =? 1) || (rank kn =? 1) then inl (SystemExit 1)
    else if rank kn >? rank kc then inr (Some new) else inr (Some cur).
Proof.
  intros Hc Hn Hne. unfold sel_result, sel_pure.
  rewrite (sel_distinct _ _ _ _ _ Hc Hn Hne).
  destruct (_ || _); [done |]. by destruct (_ >? _).
Qed.

(** What the resolver returns is the candidate or the current selection. *)
Lemma sel_result_value cur new v :
  sel_result cur new = inr v →
  ext new ∈ ALL_AVAILABLE_TYPES ∧ (v = Some new ∨ (v = cur ∧ cur ≠ None)).
Proof.
  intros H. destruct (class_or_not new) as [[kn Hn] | Hn].
  2: { destruct (sel_result_unavailable cur new Hn) as [msg Hm]. congruence. }
  assert (ext new ∈ ALL_AVAILABLE_TYPES) as Hn' by (apply elem_ALL_class; eauto).
  split; [done |].
  destruct cur as [cur |].
  2: { rewrite sel_result_first in H by done. left. congruence. }
  destruct (class_or_not cur) as [[kc Hc] | Hc].
  2: { unfold sel_result, sel_pure in H.
       rewrite sel_unknown_current in H by done. done. }
  destruct (decide (kc = kn)) as [-> | Hne].
  { destruct (sel_result_same_rank _ _ _ Hc Hn) as [msg Hm]. congruence. }
  rewrite (sel_result_distinct _ _ _ _ Hc Hn Hne) in H.
  destruct (_ || _); [done |]. destruct (_ >? _); [left | right]; naive_solver.
Qed.

(** ** Loops *)

Lemma for_app {A} (l1 l2 : list A) body st :
  for_ (l1 ++ l2) body st
  = match for_ l1 body st with
    | (st', inr _) => for_ l2 body st'
    | (st', inl e) => (st', inl e)
    end.
Proof.
  revert st. induction l1 as [| x l1 IH]; intros st; simpl; [done |].
  unfold bind. destruct (body x st) as [st' [e | []]]; [done |]. apply IH.
Qed.

Lemma for_map {A B} (f : A → B) (l : list A) body st :
  for_ (map f l) body st = for_ l (λ x, body (f x)) st.
Proof.
  revert st. induction l as [| x l IH]; intros st; simpl; [done |].
  unfold bind. destruct (body (f x) st) as [st' [e | []]]; [done |]. apply IH.
Qed.

Section ScanLoops.

Variable resolver : option Path → Path → M (option Path).
Variable images : loc.
Variable ignore_jpg : bool.
Variable max_scan_items : Z.

Lemma scan_frames_visits frames st :
  scan_frames_with resolver images ignore_jpg max_scan_items frames st
  = scan_visits_with resolver images ignore_jpg max_scan_items (visits frames) st.
Proof.
  unfold scan_frames_with, scan_visits_with. revert st.
  induction frames as [| [dir files] frames IH]; intros st; simpl; [done |].
  rewrite for_app, for_map. unfold bind. simpl.
  destruct (for_ files _ st) as [st' [e | []]]; [done |]. apply IH.
Qed.

Lemma find_matching_files_visits search_dir fs st :
  find_matching_files_with resolver images ignore_jpg max_scan_items search_dir fs st
  = match scan_visits_with resolver images ignore_jpg max_scan_items
            (visits (walk keep_dir search_dir fs)) (set_scanned 0 st) with
    | (st', inr _) => (st', inr images)
    | (st', inl e) => (st', inl e)
    end.
Proof.
  unfold find_matching_files_with, bind, ret.
  rewrite scan_frames_visits. by destruct (scan_visits_with _ _ _ _ _ _) as [st' [e | []]].
Qed.

End ScanLoops.

(** ** One step of the scan *)

Lemma name_div dir file : name (dir // file) = file.
Proof. unfold name, div. simpl. apply last_last. Qed.

Lemma ext_div dir file : ext (dir // file) = ext (of_name file).
Proof. unfold ext, suffix. by rewrite name_div. Qed.

Lemma stem_div dir file : stem (dir // file) = stem (of_name file).
Proof. unfold stem. by rewrite name_div. Qed.

(** The three early exits of the loop body do not call the resolver. *)
Lemma scan_file_over_budget resolver images ij max dir file st :
  max < scanned st + 1 →
  scan_file_with resolver images ij max dir file st
  = (set_out (out st ++ [Stderr (abort_message max)]) (counted st),
     inl (SystemExit 1)).
Proof.
  intros H. unfold scan_file_with, bind. simpl.
  by rewrite (proj2 (Z.gtb_lt _ _) H).
Qed.

Lemma gtb_false a b : a ≤ b → (a >? b) = false.
Proof. intros H. rewrite Z.gtb_ltb. by apply Z.ltb_ge. Qed.

Lemma scan_file_filtered resolver images ij max dir file st :
  scanned st + 1 ≤ max →
  ext (of_name file) ∉ file_type_filter ij →
  scan_file_with resolver images ij max dir file st
  = (set_out (out st ++ [Stdout (skipping_message (of_name file))]) (counted st),
     inr tt).
Proof.
  intros H Hf. unfold scan_file_with, bind. simpl.
  rewrite (gtb_false _ _ H). fold (ext (of_name file)).
  by rewrite bool_decide_eq_true_2.
Qed.

Lemma scan_file_unknown_stem resolver images ij max dir file st d :
  scanned st + 1 ≤ max →
  ext (of_name file) ∈ file_type_filter ij →
  dicts st !! images = Some d →
  d !! stem (of_name file) = None →
  scan_file_with resolver images ij max dir file st = (counted st, inr tt).
Proof.
  intros H Hf Hd Hs. unfold scan_file_with, bind. simpl.
  rewrite (gtb_false _ _ H). fold (ext (of_name file)).
  rewrite bool_decide_eq_false_2 by tauto.
  unfold dict_has. simpl. rewrite Hd.
  rewrite bool_decide_eq_false_2; [done |].
  by apply not_elem_of_dom.
Qed.

Lemma scan_file_no_table resolver images ij max dir file st :
  scanned st + 1 ≤ max →
  ext (of_name file) ∈ file_type_filter ij →
  dicts st !! images = None →
  scan_file_with resolver images ij max dir file st
  = (counted st, inl AttributeError).
Proof.
  intros H Hf Hd. unfold scan_file_with, bind. simpl.
  rewrite (gtb_false _ _ H). fold (ext (of_name file)).
  rewrite bool_decide_eq_false_2 by tauto.
  unfold dict_has. simpl. by rewrite Hd.
Qed.

(** A file of an allowed type whose stem is a key reaches the resolver. *)
Lemma scan_file_match images ij max dir file st d l :
  scanned st + 1 ≤ max →
  ext (of_name file) ∈ file_type_filter ij →
  dicts st !! images = Some d →
  d !! stem (of_name file) = Some l →
  scan_file images ij max dir file st
  = match objs st !! l with
    | None => (counted st, inl AttributeError)
    | Some img =>
        let new_path := dir // file in
        let st1 := set_out (out st ++ sel_events (found_file_path img) new_path)
                     (counted st) in
        match sel_result (found_file_path img) new_path with
        | inl e => (st1, inl e)
        | inr chosen =>
            (set_objs (<[l := with_found chosen img]> (objs st)) st1, inr tt)
        end
    end.
Proof.
  intros H Hf Hd Hs. unfold scan_file, scan_file_with, bind. simpl.
  rewrite (gtb_false _ _ H). fold (ext (of_name file)).
  rewrite bool_decide_eq_false_2 by tauto.
  unfold dict_has, dict_get, get_found. simpl. rewrite Hd.
  rewrite bool_decide_eq_true_2 by (rewrite elem_of_dom, Hs; eauto).
  simpl. rewrite Hd. simpl. rewrite Hs. simpl.
  destruct (objs st !! l) as [img |] eqn:Hl; [| done].
  rewrite sel_spec. simpl.
  destruct (sel_result _ _) as [e | chosen]; [done |].
  simpl. rewrite Hd, Hs. unfold set_found. simpl. by rewrite Hl.
Qed.

Lemma scan_file_cases images ij max dir file st :
  step_case images ij max dir file st (scan_file images ij max dir file st).
Proof.
  destruct (Z_lt_le_dec max (scanned st + 1)) as [H | H].
  { unfold scan_file. rewrite scan_file_over_budget by done. by constructor. }
  destruct (decide (ext (of_name file) ∈ file_type_filter ij)) as [Hf | Hf].
  2: { unfold scan_file. rewrite scan_file_filtered by done. by constructor. }
  destruct (dicts st !! images) as [d |] eqn:Hd.
  2: { unfold scan_file. rewrite scan_file_no_table by done. by constructor. }
  destruct (d !! stem (of_name file)) as [l |] eqn:Hs.
  2: { unfold scan_file. rewrite (scan_file_unknown_stem _ _ _ _ _ _ _ d) by done.
       by econstructor. }
  rewrite (scan_file_match _ _ _ _ _ _ d l) by done.
  destruct (objs st !! l) as [img |] eqn:Hl.
  2: { by econstructor. }
  simpl. destruct (sel_result _ _) as [e | chosen] eqn:Hr.
  - by eapply step_conflict.
  - by eapply step_assign.
Qed.

(** ** What a step leaves alone *)

Global Instance same_static_refl : Reflexive same_static.
Proof. by intros a. Qed.

Global Instance same_static_trans : Transitive same_static.
Proof. intros a b c (? & ? & ?) (? & ? & ?). repeat split; congruence. Qed.

Global Instance frame_refl : Reflexive frame.
Proof. intros st. split; [done |]. intros l. reflexivity. Qed.

Global Instance frame_trans : Transitive frame.
Proof.
  intros a b c [Hd1 Ho1] [Hd2 Ho2]. split; [congruence |].
  intros l. by transitivity (objs b !! l).
Qed.

Lemma frame_same st st' :
  dicts st' = dicts st → objs st' = objs st → frame st st'.
Proof. intros Hd Ho. split; [done |]. intros l. rewrite Ho. reflexivity. Qed.

Lemma frame_assign st l img v o n :
  objs st !! l = Some img →
  frame st (set_objs (<[l := with_found v img]> (objs st))
              (set_out o (set_scanned n st))).
Proof.
  intros Hl. split; [done |]. intros l'. simpl.
  destruct (decide (l = l')) as [<- | Hne].
  - rewrite lookup_insert_eq, Hl. by constructor.
  - by rewrite lookup_insert_ne.
Qed.

Lemma step_frame images ij max dir file st st' r :
  scan_file images ij max dir file st = (st', r) → frame st st'.
Proof.
  intros H. pose proof (scan_file_cases images ij max dir file st) as Hc.
  rewrite H in Hc. inversion Hc; subst; try (by apply frame_same).
  by apply frame_assign.
Qed.

Lemma step_counts images ij max dir file st st' r :
  scan_file images ij max dir file st = (st', r) →
  scanned st' = scanned st + 1.
Proof.
  intros H. pose proof (scan_file_cases images ij max dir file st) as Hc.
  rewrite H in Hc. by inversion Hc.
Qed.

Lemma step_within_budget images ij max dir file st st' :
  scan_file images ij max dir file st = (st', inr tt) → scanned st + 1 ≤ max.
Proof.
  intros H. pose proof (scan_file_cases images ij max dir file st) as Hc.
  rewrite H in Hc. by inversion Hc.
Qed.

(** A step that raises has assigned nothing. *)
Lemma step_raise images ij max dir file st st' e :
  scan_file images ij max dir file st = (st', inl e) →
  objs st' = objs st ∧ dicts st' = dicts st.
Proof.
  intros H. pose proof (scan_file_cases images ij max dir file st) as Hc.
  rewrite H in Hc. by inversion Hc.
Qed.

(** An invariant of the steps is an invariant of the loop. *)
Lemma for_invariant {A} (R : State → State → Prop) (body : A → M unit) l :
  Reflexive R → Transitive R →
  (∀ x st st' r, x ∈ l → body x st = (st', r) → R st st') →
  ∀ st st' r, for_ l body st = (st', r) → R st st'.
Proof.
  intros Hrefl Htrans. induction l as [| x l IH]; intros Hstep st st' r; simpl.
  - unfold ret. intros [= <- _]. reflexivity.
  - unfold bind. destruct (body x st) as [st1 [e | []]] eqn:Hx.
    + intros [= <- _]. eapply Hstep; [left | done].
    + intros Hl. transitivity st1.
      * eapply Hstep; [left | done].
      * eapply IH; [| done]. intros y s s' r' Hy. apply Hstep. by right.
Qed.

Lemma scan_frame images ij max vs st st' r :
  scan_visits images ij max vs st = (st', r) → frame st st'.
Proof.
  apply (for_invariant frame); try apply _.
  intros v s s' r' _. apply step_frame.
Qed.

(** ** The candidates of a record *)

Lemma step_other images ij max dir file st st' r d l :
  scan_file images ij max dir file st = (st', r) →
  dicts st !! images = Some d →
  is_candidate d ij l (dir, file) = false →
  objs st' !! l = objs st !! l.
Proof.
  intros H Hd Hn. pose proof (scan_file_cases images ij max dir file st) as Hc.
  rewrite H in Hc. inversion Hc; subst; try done.
  simpl. apply lookup_insert_ne. intros ->.
  unfold is_candidate in Hn. simpl in Hn.
  rewrite bool_decide_eq_true_2 in Hn by done.
  rewrite bool_decide_eq_true_2 in Hn by congruence. done.
Qed.

Lemma step_candidate images ij max dir file st st' d l img :
  scan_file images ij max dir file st = (st', inr tt) →
  dicts st !! images = Some d →
  objs st !! l = Some img →
  is_candidate d ij l (dir, file) = true →
  ∃ chosen, sel_result (found_file_path img) (dir // file) = inr chosen
            ∧ objs st' !! l = Some (with_found chosen img).
Proof.
  intros H Hd Hl Hy. unfold is_candidate in Hy. simpl in Hy.
  apply andb_true_iff in Hy as [Hf Hs].
  apply bool_decide_eq_true in Hf. apply bool_decide_eq_true in Hs.
  pose proof (scan_file_cases images ij max dir file st) as Hc.
  rewrite H in Hc. inversion Hc; subst; try done; try congruence.
  assert (d0 = d) as -> by congruence.
  assert (l0 = l) as -> by congruence.
  assert (img0 = img) as -> by congruence.
  exists chosen. split; [done |]. simpl. apply lookup_insert_eq.
Qed.

Lemma scan_track images ij max d l vs : ∀ st st' img,
  scan_visits images ij max vs st = (st', inr tt) →
  dicts st !! images = Some d →
  objs st !! l = Some img →
  ∃ img', objs st' !! l = Some img'
          ∧ track (found_file_path img) (candidates d ij l vs)
            = inr (found_file_path img').
Proof.
  unfold scan_visits, scan_visits_with.
  induction vs as [| [dir file] vs IH]; intros st st' img; simpl.
  - unfold ret. intros [= <-] _ Hl. eauto.
  - unfold bind. fold (scan_file images ij max dir file).
    destruct (scan_file images ij max dir file st) as [st1 [e | []]] eqn:Hx;
      [done |].
    intros Hrest Hd Hl.
    assert (dicts st1 !! images = Some d) as Hd1.
    { apply step_frame in Hx as [-> _]. done. }
    unfold candidates. simpl.
    destruct (is_candidate d ij l (dir, file)) eqn:Hy.
    + destruct (step_candidate _ _ _ _ _ _ _ _ _ _ Hx Hd Hl Hy)
        as (chosen & Hsel & Hl1).
      simpl. rewrite Hsel.
      apply (IH _ _ _ Hrest Hd1 Hl1).
    + apply (IH _ _ _ Hrest Hd1).
      by rewrite (step_other _ _ _ _ _ _ _ _ _ _ Hx Hd Hy).
Qed.

Lemma candidates_nil d ij l vs :
  candidates d ij l vs = [] → ∀ v, v ∈ vs → is_candidate d ij l v = false.
Proof.
  unfold candidates. intros H v Hv. apply map_eq_nil in H.
  apply not_true_is_false. intros Hc.
  assert (In v (List.filter (is_candidate d ij l) vs)) as Hin.
  { apply filter_In. split; [by apply list_elem_of_In | done]. }
  rewrite H in Hin. done.
Qed.

(** A record without candidates is not written to, whatever ends the scan. *)
Lemma scan_untouched images ij max d l vs st st' r :
  scan_visits images ij max vs st = (st', r) →
  dicts st !! images = Some d →
  candidates d ij l vs = [] →
  objs st' !! l = objs st !! l.
Proof.
  intros H Hd Hnil. pose proof (candidates_nil _ _ _ _ Hnil) as Hno.
  pose (R := λ s s' : State, dicts s !! images = Some d →
               dicts s' !! images = Some d ∧ objs s' !! l = objs s !! l).
  assert (R st st') as HR; [| by apply HR].
  eapply (for_invariant R); [| | | exact H].
  - by intros s Hs.
  - intros a b c Hab Hbc Ha. destruct (Hab Ha) as [Hb Hab'].
    destruct (Hbc Hb) as [Hc Hbc']. split; [done | congruence].
  - intros [dir file] s s' r' Hv Hx Hs. simpl in Hx. split.
    + apply step_frame in Hx as [-> _]. done.
    + eapply step_other; [exact Hx | exact Hs | by apply Hno].
Qed.

(** ** The counter and the budget *)

Lemma scan_counts images ij max vs : ∀ st st',
  scan_visits images ij max vs st = (st', inr tt) →
  scanned st' = scanned st + Z.of_nat (length vs)
  ∧ (vs ≠ [] → scanned st' ≤ max).
Proof.
  unfold scan_visits, scan_visits_with.
  induction vs as [| [dir file] vs IH]; intros st st'; simpl.
  - unfold ret. intros [= <-]. split; [lia | done].
  - unfold bind. fold (scan_file images ij max dir file).
    destruct (scan_file images ij max dir file st) as [st1 [e | []]] eqn:Hx;
      [done |].
    intros Hrest. pose proof (step_counts _ _ _ _ _ _ _ _ Hx) as Hc.
    pose proof (step_within_budget _ _ _ _ _ _ _ Hx) as Hb.
    destruct (IH _ _ Hrest) as [Hn Hle]. split; [lia |].
    intros _. destruct vs as [| v vs'].
    + simpl in Hrest. unfold ret in Hrest. injection Hrest as <-. lia.
    + apply Hle. done.
Qed.

Lemma scan_visits_app images ij max vs1 vs2 st :
  scan_visits images ij max (vs1 ++ vs2) st
  = match scan_visits images ij max vs1 st with
    | (st', inr _) => scan_visits images ij max vs2 st'
    | (st', inl e) => (st', inl e)
    end.
Proof. apply for_app. Qed.

(** Past the budget the scan raises, and what it does is decided by the
    files up to the first one over the budget. *)
Lemma scan_stops_at_budget images ij max vs st :
  scanned st ≤ max →
  (Z.to_nat (max - scanned st) < length vs)%nat →
  ∃ st' e,
    scan_visits images ij max vs st = (st', inl e)
    ∧ scan_visits images ij max (take (S (Z.to_nat (max - scanned st))) vs) st
      = (st', inl e).
Proof.
  intros Hle Hlen. set (k := S (Z.to_nat (max - scanned st))).
  pose proof (scan_visits_app images ij max (take k vs) (drop k vs) st) as Happ.
  rewrite take_drop in Happ.
  destruct (scan_visits images ij max (take k vs) st) as [st1 [e | []]] eqn:Ht.
  - eauto.
  - exfalso. apply scan_counts in Ht as [Hn Hb].
    rewrite length_take in Hn.
    assert (take k vs ≠ []) as Hne.
    { intros Hnil. apply (f_equal length) in Hnil.
      rewrite length_take in Hnil. change (length []) with 0%nat in Hnil.
      unfold k in Hnil. lia. }
    specialize (Hb Hne). unfold k in Hn. lia.
Qed.

(** When the files within the budget raise nothing, the next one ends the
    scan with the message of the limit. *)
Lemma scan_abort_at_budget images ij max vs st st1 :
  scanned st ≤ max →
  (Z.to_nat (max - scanned st) < length vs)%nat →
  scan_visits images ij max (take (Z.to_nat (max - scanned st)) vs) st
  = (st1, inr tt) →
  scanned st1 = max
  ∧ scan_visits images ij max vs st
    = (set_out (out st1 ++ [Stderr (abort_message max)]) (counted st1),
       inl (SystemExit 1)).
Proof.
  intros Hle Hlen Ht. set (k := Z.to_nat (max - scanned st)) in *.
  pose proof (scan_counts _ _ _ _ _ _ Ht) as [Hn _].
  rewrite length_take in Hn.
  assert (scanned st1 = max) as Hmax by (unfold k in Hn; lia). split; [done |].
  pose proof (scan_visits_app images ij max (take k vs) (drop k vs) st) as Happ.
  rewrite take_drop, Ht in Happ. rewrite Happ.
  destruct (drop k vs) as [| [dir file] rest] eqn:Hd.
  { apply (f_equal length) in Hd. rewrite length_drop in Hd.
    change (length []) with 0%nat in Hd. unfold k in Hd. lia. }
  unfold scan_visits, scan_visits_with. simpl. unfold bind.
  rewrite scan_file_over_budget by lia. done.
Qed.

(** ** Pruned directories *)

(** The walk of the scan is the unpruned walk of the pruned tree. *)
Lemma walk_prune : ∀ t dir,
  walk keep_dir dir t = walk (λ _, true) dir (prune t).
Proof.
  fix IH 1. intros [files subdirs] dir. simpl. f_equal.
  induction subdirs as [| [d sub] ds IHds]; simpl; [done |].
  destruct (keep_dir d); simpl.
  - by rewrite IH, IHds.
  - apply IHds.
Qed.

Lemma walk_dirs_kept : ∀ t dir frame,
  In frame (walk keep_dir dir t) →
  ∃ comps, frame.1 = descend_by dir comps ∧ Forall (λ c, c ∉ ignore_dirs) comps.
Proof.
  fix IH 1. intros [files subdirs] dir frame. simpl. intros [<- | Hin].
  - exists []. split; [| constructor]. unfold descend_by. simpl.
    rewrite app_nil_r. by destruct dir.
  - induction subdirs as [| [d sub] ds IHds]; simpl in Hin; [done |].
    apply in_app_or in Hin as [Hin | Hin]; [| by apply IHds].
    unfold keep_dir in Hin. case_bool_decide as Hd; [| done].
    apply IH in Hin as (comps & -> & Hall).
    exists (d :: comps). split; [| by constructor].
    unfold descend_by, div. simpl. by rewrite <- app_assoc.
Qed.

(** ** Raster files under [ignore_jpg] *)

Global Instance no_new_raster_refl : Reflexive no_new_raster.
Proof. intros st l img H. eauto. Qed.

Global Instance no_new_raster_trans : Transitive no_new_raster.
Proof.
  intros a b c Hab Hbc l img Hl.
  destruct (Hbc _ _ Hl) as (img1 & Hl1 & H1).
  destruct (Hab _ _ Hl1) as (img0 & Hl0 & H0).
  exists img0. split; [done |].
  destruct H1 as [-> | H1]; [done | by right].
Qed.

Lemma filter_without_jpg s :
  s ∈ file_type_filter true ↔ s ∈ ALL_AVAILABLE_TYPES ∧ s ∉ JPG_TYPES.
Proof. unfold file_type_filter. set_solver. Qed.

Lemma step_no_new_raster images max dir file st st' r :
  scan_file images true max dir file st = (st', r) → no_new_raster st st'.
Proof.
  intros H. pose proof (scan_file_cases images true max dir file st) as Hc.
  rewrite H in Hc. inversion Hc; subst; try reflexivity;
    try (intros l0 img0 Hl0; simpl in Hl0; by eauto).
  intros l' img' Hl'. simpl in Hl'.
  destruct (decide (l = l')) as [<- | Hne].
  2: { rewrite lookup_insert_ne in Hl' by done. eauto. }
  rewrite lookup_insert_eq in Hl'. injection Hl' as <-.
  exists img. split; [done |]. simpl.
  match goal with Hs : sel_result _ _ = inr _ |- _ =>
    apply sel_result_value in Hs as [_ [-> | [-> _]]] end; [right | by left].
  exists (dir // file). split; [done |]. rewrite ext_div.
  match goal with Hf : _ ∈ file_type_filter true |- _ =>
    apply filter_without_jpg in Hf as [_ Hf]; exact Hf end.
Qed.

Lemma scan_no_new_raster images max vs st st' r :
  scan_visits images true max vs st = (st', r) → no_new_raster st st'.
Proof.
  apply (for_invariant no_new_raster); try apply _.
  intros v s s' r' _. apply step_no_new_raster.
Qed.

(** * The resolver *)

(** A decidable closed proposition, settled by evaluation. *)
Ltac by_eval :=
  match goal with
  | |- ?P => apply (bool_decide_unpack P); vm_compute; exact I
  end.

Lemma track_first p cs :
  ext p ∈ ALL_AVAILABLE_TYPES → track None (p :: cs) = track (Some p) cs.
Proof. intros H. simpl. by rewrite sel_result_first. Qed.

Lemma class_available p k : has_class p k → ext p ∈ ALL_AVAILABLE_TYPES.
Proof. intros H. apply elem_ALL_class. eauto. Qed.

(** C1. Between one XMP file and one RAW file the resolver returns the XMP
    file: it keeps a current XMP selection in silence, and replaces a
    current RAW selection by an XMP candidate with the one event
    "Updating ...". In a scan that returns, a record that starts without a
    selection and whose candidates are one XMP file [x] and one RAW file
    [r], in either order, ends with [found_file_path = x]. *)
Theorem C1_xmp_outranks_raw :
  (∀ cur new st,
     has_class cur XMP → has_class new RAW →
     select_preferred_path (Some cur) new st = (st, inr (Some cur)))
  ∧ (∀ cur new st,
       has_class cur RAW → has_class new XMP →
       select_preferred_path (Some cur) new st
       = (set_out (out st ++ [Stdout (updating_message new)]) st,
          inr (Some new)))
  ∧ (∀ search_dir fs images ij max st st' v d s l img x r,
       find_matching_files search_dir fs images ij max st = (st', inr v) →
       dicts st !! images = Some d →
       d !! s = Some l →
       objs st !! l = Some img →
       found_file_path img = None →
       has_class x XMP → has_class r RAW →
       candidates d ij l (visits (walk keep_dir search_dir fs)) = [x; r]
       ∨ candidates d ij l (visits (walk keep_dir search_dir fs)) = [r; x] →
       ∃ img', objs st' !! l = Some img' ∧ found_file_path img' = Some x).
Proof.
  split; [| split].
  - intros cur new st Hc Hn.
    by rewrite (sel_distinct _ _ _ _ _ Hc Hn).
  - intros cur new st Hc Hn.
    by rewrite (sel_distinct _ _ _ _ _ Hc Hn).
  - intros search_dir fs images ij max st st' v d s l img x r H Hd _ Hl Hnone Hx Hr Hcs.
    unfold find_matching_files in H. rewrite find_matching_files_visits in H.
    fold (scan_visits images ij max) in H.
    destruct (scan_visits _ _ _ _ _) as [st1 [e | []]] eqn:Hscan; [done |].
    injection H as <- _.
    destruct (scan_track _ _ _ d l _ _ _ img Hscan Hd Hl) as (img' & Hl' & Ht).
    exists img'. split; [done |]. rewrite Hnone in Ht.
    destruct Hcs as [Hcs | Hcs]; rewrite Hcs in Ht.
    + rewrite track_first in Ht by (by eapply class_available). simpl in Ht.
      rewrite (sel_result_distinct _ _ _ _ Hx Hr) in Ht by done.
      simpl in Ht. congruence.
    + rewrite track_first in Ht by (by eapply class_available). simpl in Ht.
      rewrite (sel_result_distinct _ _ _ _ Hr Hx) in Ht by done.
      simpl in Ht. congruence.
Qed.

Lemma C1_xmp_outranks_raw_witness :
  select_preferred_path (Some Fixture.xmp_path) Fixture.raw_path Fixture.empty
  = (Fixture.empty, inr (Some Fixture.xmp_path))
  ∧ select_preferred_path (Some Fixture.raw_path) Fixture.xmp_path Fixture.empty
    = (set_out [Stdout "Updating IMG_0001 -> Selects/IMG_0001.XMP"] Fixture.empty,
       inr (Some Fixture.xmp_path))
  ∧ ∃ img',
      objs (find_matching_files Fixture.photos Fixture.standard_tree 1%positive
              false 100 Fixture.images_template).1 !! 2%positive = Some img'
      ∧ found_file_path img'
        = Some (Fixture.photos // "Selects" // "IMG_0001.XMP").
Proof.
  destruct C1_xmp_outranks_raw as (H1 & H2 & H3). split; [| split].
  - apply H1; by_eval.
  - apply H2; by_eval.
  - eapply (H3 Fixture.photos Fixture.standard_tree 1%positive false 100
              Fixture.images_template _ 1%positive _ "IMG_0001" 2%positive _
              (Fixture.photos // "Selects" // "IMG_0001.XMP")
              (Fixture.photos // "Selects" // "IMG_0001.ARW")).
    + vm_compute. reflexivity.
    + vm_compute. reflexivity.
    + vm_compute. reflexivity.
    + vm_compute. reflexivity.
    + reflexivity.
    + by_eval.
    + by_eval.
    + right. vm_compute. reflexivity.
Defined.

(** C2. When the current selection and the candidate are one RASTER file
    and one RAW or XMP file, in either role, the resolver writes to the
    error output the message that names the stem and the two paths and
    raises [SystemExit] with the status 1; a same-rank pair raises
    [ValueError], which is another exception. *)
Theorem C2_raster_conflict_is_fatal cur new st :
  (has_class cur RASTER ∧ (has_class new RAW ∨ has_class new XMP))
  ∨ ((has_class cur RAW ∨ has_class cur XMP) ∧ has_class new RASTER) →
  select_preferred_path (Some cur) new st
  = (set_out
       (out st ++
        [Stderr ("Found both a jpg type and raw/xmp type for " +:+ stem new
                 +:+ ", will not write to both:" +:+ Str.nl +:+ "  "
                 +:+ str cur +:+ Str.nl +:+ "  " +:+ str new)]) st,
     inl (SystemExit 1))
  ∧ 1 ≠ 0
  ∧ ∀ k c n st2,
      has_class c k → has_class n k →
      ∃ msg, select_preferred_path (Some c) n st2 = (st2, inl (ValueError msg))
             ∧ ValueError msg ≠ SystemExit 1.
Proof.
  intros H. split; [| split; [done |]].
  - destruct H as [[Hc [Hn | Hn]] | [[Hc | Hc] Hn]];
      by rewrite (sel_distinct _ _ _ _ _ Hc Hn).
  - intros k c n st2 Hc Hn. eexists. split; [by eapply sel_same_rank | done].
Qed.

Lemma C2_raster_conflict_is_fatal_witness :
  select_preferred_path (Some Fixture.jpg_path) Fixture.raw_path Fixture.empty
  = (set_out
       [Stderr ("Found both a jpg type and raw/xmp type for IMG_0001"
                +:+ ", will not write to both:" +:+ Str.nl
                +:+ "  Selects/IMG_0001.JPG" +:+ Str.nl
                +:+ "  Selects/IMG_0001.ARW")] Fixture.empty,
     inl (SystemExit 1)).
Proof.
  apply (C2_raster_conflict_is_fatal Fixture.jpg_path Fixture.raw_path Fixture.empty).
  left. split; [| left]; by_eval.
Defined.

(** C3. When the current selection, if there is one, has a recognised
    extension, the resolver raises [ValueError] exactly when the extension
    of the candidate is outside the three classes or the current selection
    exists and is of the class of the candidate; in these cases it emits
    nothing and returns no path. *)
Theorem C3_invariant_error_iff cur new st :
  (∀ c, cur = Some c → ext c ∈ ALL_AVAILABLE_TYPES) →
  ((∃ msg, (select_preferred_path cur new st).2 = inl (ValueError msg))
   ↔ (ext new ∉ ALL_AVAILABLE_TYPES
      ∨ ∃ c k, cur = Some c ∧ has_class c k ∧ has_class new k))
  ∧ (∀ msg, (select_preferred_path cur new st).2 = inl (ValueError msg) →
            select_preferred_path cur new st = (st, inl (ValueError msg))
            ∧ ValueError msg ≠ SystemExit 1).
Proof.
  intros Hcur.
  assert (∀ msg, (select_preferred_path cur new st).2 = inl (ValueError msg) →
            (ext new ∉ ALL_AVAILABLE_TYPES
             ∨ ∃ c k, cur = Some c ∧ has_class c k ∧ has_class new k)) as Hfwd.
  { intros msg H.
    destruct (class_or_not new) as [[kn Hn] | Hn]; [| by left].
    right. destruct cur as [c |].
    2: { rewrite sel_first in H by (by eapply class_available). done. }
    destruct (proj1 (elem_ALL_class _) (Hcur c eq_refl)) as [kc Hc].
    destruct (decide (kc = kn)) as [-> | Hne]; [by eauto |].
    rewrite (sel_distinct _ _ _ _ _ Hc Hn Hne) in H.
    destruct (_ || _); [done |]. by destruct (_ >? _). }
  assert ((ext new ∉ ALL_AVAILABLE_TYPES
           ∨ ∃ c k, cur = Some c ∧ has_class c k ∧ has_class new k) →
          ∃ msg, select_preferred_path cur new st = (st, inl (ValueError msg)))
    as Hbwd.
  { intros [Hn | (c & k & -> & Hc & Hn)].
    - rewrite sel_unavailable by done. eauto.
    - rewrite (sel_same_rank _ _ _ _ Hc Hn). eauto. }
  split.
  - split; [intros [msg H]; by eapply Hfwd |].
    intros H. destruct (Hbwd H) as [msg ->]. eauto.
  - intros msg H. split; [| done].
    destruct (Hbwd (Hfwd _ H)) as [msg' H']. rewrite H' in H |- *.
    simpl in H. congruence.
Qed.

Lemma C3_invariant_error_iff_witness :
  ∃ msg, (select_preferred_path (Some Fixture.jpg_path) Fixture.heic_path
            Fixture.empty).2 = inl (ValueError msg).
Proof.
  apply (C3_invariant_error_iff (Some Fixture.jpg_path) Fixture.heic_path
           Fixture.empty).
  - intros c [= <-]. by_eval.
  - right. exists Fixture.jpg_path, RASTER.
    split; [reflexivity |].
    split; by_eval.
Defined.

(** C8. Without a current selection the resolver returns a candidate of a
    recognised type and emits the one event "Found ...". In a scan that
    returns, a record that starts without a selection and whose candidates
    are all of one class has exactly one candidate, wherever the walk meets
    it, and ends with that candidate as [found_file_path]. *)
Theorem C8_first_candidate_selected :
  (∀ new st,
     ext new ∈ ALL_AVAILABLE_TYPES →
     select_preferred_path None new st
     = (set_out (out st ++ [Stdout ("Found " +:+ stem new +:+ " -> " +:+ str new)]) st,
        inr (Some new)))
  ∧ (∀ search_dir fs images ij max st st' v d s l img k,
       find_matching_files search_dir fs images ij max st = (st', inr v) →
       dicts st !! images = Some d →
       d !! s = Some l →
       objs st !! l = Some img →
       found_file_path img = None →
       candidates d ij l (visits (walk keep_dir search_dir fs)) ≠ [] →
       Forall (λ p, has_class p k)
         (candidates d ij l (visits (walk keep_dir search_dir fs))) →
       ∃ p img',
         candidates d ij l (visits (walk keep_dir search_dir fs)) = [p]
         ∧ objs st' !! l = Some img'
         ∧ found_file_path img' = Some p).
Proof.
  split.
  - intros new st H. by rewrite sel_first.
  - intros search_dir fs images ij max st st' v d s l img k H Hd _ Hl Hnone Hne Hall.
    unfold find_matching_files in H. rewrite find_matching_files_visits in H.
    fold (scan_visits images ij max) in H.
    destruct (scan_visits _ _ _ _ _) as [st1 [e | []]] eqn:Hscan; [done |].
    injection H as <- _.
    destruct (scan_track _ _ _ d l _ _ _ img Hscan Hd Hl) as (img' & Hl' & Ht).
    rewrite Hnone in Ht.
    destruct (candidates d ij l _) as [| p [| q rest]]; [done | |].
    + exists p, img'. repeat split; [done |].
      apply Forall_cons in Hall as [Hp _].
      rewrite track_first in Ht by (by eapply class_available).
      simpl in Ht. congruence.
    + exfalso. apply Forall_cons in Hall as [Hp Hall].
      apply Forall_cons in Hall as [Hq _].
      rewrite track_first in Ht by (by eapply class_available).
      simpl in Ht.
      destruct (sel_result_same_rank _ _ _ Hp Hq) as [msg Hm].
      rewrite Hm in Ht. done.
Qed.

Lemma C8_first_candidate_selected_witness :
  select_preferred_path None Fixture.jpg_path Fixture.empty
  = (set_out [Stdout "Found IMG_0001 -> Selects/IMG_0001.JPG"] Fixture.empty,
     inr (Some Fixture.jpg_path))
  ∧ ∃ p img',
      candidates {[ "IMG_0001" := 2%positive; "IMG_0002" := 3%positive;
                    "IMG_0003" := 4%positive ]} false 3%positive
        (visits (walk keep_dir Fixture.photos Fixture.standard_tree)) = [p]
      ∧ objs (find_matching_files Fixture.photos Fixture.standard_tree
                1%positive false 100 Fixture.images_template).1 !! 3%positive
        = Some img'
      ∧ found_file_path img' = Some p.
Proof.
  destruct C8_first_candidate_selected as [H1 H2]. split.
  - apply H1. by_eval.
  - eapply (H2 Fixture.photos Fixture.standard_tree 1%positive false 100
              Fixture.images_template _ 1%positive _ "IMG_0002" 3%positive _
              RASTER).
    + vm_compute. reflexivity.
    + vm_compute. reflexivity.
    + vm_compute. reflexivity.
    + vm_compute. reflexivity.
    + reflexivity.
    + vm_compute. discriminate.
    + by_eval.
Defined.

(** * The scan *)

(** C5. The scan returns the reference it was given; whatever ends it, the
    dicts of the store are the ones before the call (no key added or
    removed, no value replaced by another record), the [Image] objects are
    the same set, and each keeps its [line_no], [input_file_path] and
    [input_desc]; a record none of whose keys is the stem of a visited file
    of an allowed type is not written to at all, so that an absent
    [found_file_path] stays absent. *)
Theorem C5_scan_frame search_dir fs images ij max st st' r :
  find_matching_files search_dir fs images ij max st = (st', r) →
  (∀ v, r = inr v → v = images)
  ∧ dicts st' = dicts st
  ∧ dom (objs st') = dom (objs st)
  ∧ (∀ l img, objs st !! l = Some img →
       ∃ img', objs st' !! l = Some img'
               ∧ line_no img' = line_no img
               ∧ input_file_path img' = input_file_path img
               ∧ input_desc img' = input_desc img)
  ∧ (∀ d s l,
       dicts st !! images = Some d →
       d !! s = Some l →
       candidates d ij l (visits (walk keep_dir search_dir fs)) = [] →
       objs st' !! l = objs st !! l
       ∧ ∀ img, objs st !! l = Some img → found_file_path img = None →
           ∃ img', objs st' !! l = Some img' ∧ found_file_path img' = None).
Proof.
  intros H. unfold find_matching_files in H.
  rewrite find_matching_files_visits in H.
  fold (scan_visits images ij max) in H.
  destruct (scan_visits _ _ _ _ _) as [st1 r1] eqn:Hscan.
  assert (st1 = st') as -> by (destruct r1; congruence).
  pose proof (scan_frame _ _ _ _ _ _ _ Hscan) as [Hd Ho]. simpl in Hd, Ho.
  split; [| split; [| split; [| split]]].
  - intros v ->. destruct r1 as [e | []]; congruence.
  - done.
  - apply set_eq. intros l. rewrite !elem_of_dom.
    destruct (Ho l); split; intros [? ?]; eauto; done.
  - intros l img Hl. specialize (Ho l). rewrite Hl in Ho.
    inversion Ho as [? img' (? & ? & ?) |]; subst. exists img'. eauto.
  - intros d s l Hdict _ Hnil.
    assert (objs st' !! l = objs st !! l) as Heq
      by (by eapply (scan_untouched _ _ _ d l _ _ _ _ Hscan)).
    split; [done |]. intros img Hl Hnone. exists img. by rewrite Heq.
Qed.

Lemma C5_scan_frame_witness :
  objs (find_matching_files Fixture.photos Fixture.standard_tree 1%positive
          false 100 Fixture.images_template).1 !! 4%positive
  = Some (mkImage 1 (of_name "IMG_0003.HEIC") "Description for 03 heic" None).
Proof.
  pose proof (C5_scan_frame Fixture.photos Fixture.standard_tree 1%positive
                false 100 Fixture.images_template _ _ eq_refl)
    as (_ & _ & _ & _ & H).
  destruct (H {[ "IMG_0001" := 2%positive; "IMG_0002" := 3%positive;
                 "IMG_0003" := 4%positive ]} "IMG_0003" 4%positive) as [-> _].
  - vm_compute. reflexivity.
  - vm_compute. reflexivity.
  - vm_compute. reflexivity.
  - vm_compute. reflexivity.
Defined.

(** C9. When a visited file raises, for the budget or for a conflict, after
    the files before it went through, the scan ends with that exception in
    the store those files left: the step that raises assigns nothing and
    nothing assigned before it is undone. *)
Theorem C9_abort_keeps_assignments
  search_dir fs images ij max st (pre post : list (Path * string)) dir file
  st1 st2 e :
  visits (walk keep_dir search_dir fs) = (pre ++ (dir, file) :: post)%list →
  scan_visits images ij max pre (set_scanned 0 st) = (st1, inr tt) →
  scan_file images ij max dir file st1 = (st2, inl e) →
  find_matching_files search_dir fs images ij max st = (st2, inl e)
  ∧ objs st2 = objs st1
  ∧ dicts st2 = dicts st1.
Proof.
  intros Hvs Hpre Hstep. split; [| by eapply step_raise].
  unfold find_matching_files. rewrite find_matching_files_visits, Hvs.
  fold (scan_visits images ij max). rewrite scan_visits_app, Hpre.
  unfold scan_visits, scan_visits_with. simpl. unfold bind.
  fold (scan_file images ij max dir file). by rewrite Hstep.
Qed.

Lemma C9_abort_keeps_assignments_witness :
  (∃ st2,
     find_matching_files Fixture.photos
       (Dir ["IMG_0001.ARW"; "IMG_0002.JPG"; "IMG_0001.JPG"] [])
       1%positive false 100 Fixture.images_template = (st2, inl (SystemExit 1))
     ∧ found_file_path <$> objs st2 !! 2%positive
       = Some (Some (Fixture.photos // "IMG_0001.ARW"))
     ∧ found_file_path <$> objs st2 !! 3%positive
       = Some (Some (Fixture.photos // "IMG_0002.JPG")))
  ∧ (∃ st2,
       find_matching_files Fixture.photos
         (Dir ["IMG_0001.ARW"; "notes.txt"] [])
         1%positive false 1 Fixture.images_template = (st2, inl (SystemExit 1))
       ∧ found_file_path <$> objs st2 !! 2%positive
         = Some (Some (Fixture.photos // "IMG_0001.ARW"))).
Proof.
  split.
  - edestruct (C9_abort_keeps_assignments Fixture.photos
                 (Dir ["IMG_0001.ARW"; "IMG_0002.JPG"; "IMG_0001.JPG"] [])
                 1%positive false 100 Fixture.images_template
                 [(Fixture.photos, "IMG_0001.ARW"); (Fixture.photos, "IMG_0002.JPG")]
                 [] Fixture.photos "IMG_0001.JPG") as (H1 & H2 & _).
    + vm_compute. reflexivity.
    + vm_compute. reflexivity.
    + vm_compute. reflexivity.
    + eexists. split; [exact H1 |]. rewrite H2. vm_compute. split; reflexivity.
  - edestruct (C9_abort_keeps_assignments Fixture.photos
                 (Dir ["IMG_0001.ARW"; "notes.txt"] [])
                 1%positive false 1 Fixture.images_template
                 [(Fixture.photos, "IMG_0001.ARW")]
                 [] Fixture.photos "notes.txt") as (H1 & H2 & _).
    + vm_compute. reflexivity.
    + vm_compute. reflexivity.
    + vm_compute. reflexivity.
    + eexists. split; [exact H1 |]. rewrite H2. vm_compute. reflexivity.
Defined.

(** C6. The scan of a tree is the scan of the tree without its directories
    named CaptureOne, at any depth: two trees that agree once these
    directories are deleted give the same result, with the same counter,
    the same output and the same store, whatever the directories hold and
    whatever resolver is called; and no visited directory has a component
    named CaptureOne below the directory the scan started in. *)
Theorem C6_ignored_dirs_pruned resolver images ij max search_dir fs fs' st :
  prune fs = prune fs' →
  find_matching_files_with resolver images ij max search_dir fs st
  = find_matching_files_with resolver images ij max search_dir fs' st
  ∧ ∀ current_dir files,
      In (current_dir, files) (walk keep_dir search_dir fs) →
      ∃ comps, current_dir = descend_by search_dir comps
               ∧ Forall (λ c, c ≠ "CaptureOne") comps.
Proof.
  intros H. split.
  - unfold find_matching_files_with. by rewrite !walk_prune, H.
  - intros current_dir files Hin.
    apply walk_dirs_kept in Hin as (comps & Heq & Hall). simpl in Heq.
    exists comps. split; [done |].
    eapply Forall_impl; [exact Hall |]. intros c Hc ->. apply Hc.
    unfold ignore_dirs. set_solver.
Qed.

Lemma C6_ignored_dirs_pruned_witness :
  find_matching_files Fixture.photos Fixture.captureone_tree 1%positive false
    100 Fixture.images_template
  = find_matching_files Fixture.photos (Dir ["IMG_0001.ARW"] []) 1%positive
      false 100 Fixture.images_template.
Proof.
  apply (C6_ignored_dirs_pruned select_preferred_path 1%positive false 100
           Fixture.photos Fixture.captureone_tree (Dir ["IMG_0001.ARW"] [])
           Fixture.images_template).
  reflexivity.
Defined.

(** C7. With [ignore_jpg] the filter is the recognised types without the
    raster types; a raster file within the budget is counted and skipped
    with the message "Skipping unavailable type ...", whatever resolver the
    scan would call; and after any number of visited files, and at the end
    of the scan whatever ends it, each record holds the selection it had
    before the scan or a file of no raster type. *)
Theorem C7_ignore_jpg_excludes_raster :
  (∀ s, s ∈ file_type_filter true ↔ s ∈ ALL_AVAILABLE_TYPES ∧ s ∉ JPG_TYPES)
  ∧ (∀ resolver images max dir file st,
       has_class (of_name file) RASTER →
       scanned st + 1 ≤ max →
       scan_file_with resolver images true max dir file st
       = (set_out (out st ++ [Stdout ("Skipping unavailable type "
                                      +:+ str (of_name file))])
            (set_scanned (scanned st + 1) st), inr tt))
  ∧ (∀ images max vs n st st' r,
       scan_visits images true max (take n vs) st = (st', r) →
       ∀ l img', objs st' !! l = Some img' →
         ∃ img, objs st !! l = Some img
                ∧ (found_file_path img' = found_file_path img
                   ∨ ∃ p, found_file_path img' = Some p ∧ ¬ has_class p RASTER))
  ∧ (∀ search_dir fs images max st st' r,
       find_matching_files search_dir fs images true max st = (st', r) →
       ∀ l img', objs st' !! l = Some img' →
         ∃ img, objs st !! l = Some img
                ∧ (found_file_path img' = found_file_path img
                   ∨ ∃ p, found_file_path img' = Some p ∧ ¬ has_class p RASTER)).
Proof.
  split; [apply filter_without_jpg |]. split; [| split].
  - intros resolver images max dir file st Hr Hb.
    apply scan_file_filtered; [done |].
    rewrite filter_without_jpg. intros [_ Hn]. by apply Hn.
  - intros images max vs n st st' r H. by eapply scan_no_new_raster.
  - intros search_dir fs images max st st' r H.
    unfold find_matching_files in H. rewrite find_matching_files_visits in H.
    fold (scan_visits images true max) in H.
    destruct (scan_visits _ _ _ _ _) as [st1 r1] eqn:Hscan.
    assert (st1 = st') as -> by (destruct r1; congruence).
    apply (scan_no_new_raster _ _ _ _ _ _ Hscan).
Qed.

Lemma C7_ignore_jpg_excludes_raster_witness :
  find_matching_files Fixture.photos (Dir ["IMG_0002.JPG"] []) 1%positive true
    100 Fixture.images_template
  = (set_out [Stdout "Skipping unavailable type IMG_0002.JPG"]
       (set_scanned 1 Fixture.images_template), inr 1%positive)
  ∧ ∃ img,
      Fixture.images_template.(objs) !! 3%positive = Some img
      ∧ (None = found_file_path img
         ∨ ∃ p, None = Some p ∧ ¬ has_class p RASTER).
Proof.
  destruct C7_ignore_jpg_excludes_raster as (_ & H2 & _ & H4). split.
  - unfold find_matching_files.
    rewrite find_matching_files_visits. unfold scan_visits_with. simpl.
    unfold bind. rewrite H2; [reflexivity | by_eval | simpl; lia].
  - apply (H4 Fixture.photos (Dir ["IMG_0002.JPG"] []) 1%positive 100
             Fixture.images_template _ _ eq_refl 3%positive
             (mkImage 2 (of_name "IMG_0002.JPG") "Description for 02 jpg" None)).
    vm_compute. reflexivity.
Defined.

Lemma sel_result_same_ext cur p q :
  ext p = ext q → same_verdict cur p q (sel_result cur p) (sel_result cur q).
Proof.
  intros Heq.
  destruct (class_or_not p) as [[kn Hp] | Hp].
  2: { assert (ext q ∉ ALL_AVAILABLE_TYPES) as Hq by (by rewrite <- Heq).
       destruct (sel_result_unavailable cur p Hp) as [m1 ->].
       destruct (sel_result_unavailable cur q Hq) as [m2 ->]. done. }
  assert (has_class q kn) as Hq by (unfold has_class; by rewrite <- Heq).
  destruct cur as [c |].
  2: { rewrite !sel_result_first by (by eapply class_available). by left. }
  destruct (class_or_not c) as [[kc Hc] | Hc].
  2: { unfold sel_result, sel_pure.
       rewrite !sel_unknown_current by (done || by eapply class_available).
       done. }
  destruct (decide (kc = kn)) as [-> | Hne].
  { destruct (sel_result_same_rank _ _ _ Hc Hp) as [m1 ->].
    destruct (sel_result_same_rank _ _ _ Hc Hq) as [m2 ->]. done. }
  rewrite (sel_result_distinct _ _ _ _ Hc Hp Hne),
    (sel_result_distinct _ _ _ _ Hc Hq Hne).
  destruct (_ || _); [done |]. destruct (_ >? _); [by left | by right].
Qed.

(** C10. A visited file is matched by looking its stem up in the table as
    it is spelled: a file of an allowed type within the budget whose stem is
    no key is counted and skipped with no output and no call of the
    resolver, whatever key has the same spelling in another letter case;
    the type of a file is decided by [lower] of its suffix, so that two
    paths whose suffixes differ in letter case only are of the same class,
    pass the same filters, have the same priority and get the same verdict
    of the resolver. *)
Theorem C10_stems_exact_extensions_folded :
  (∀ resolver images ij max dir file st d,
     scanned st + 1 ≤ max →
     ext (of_name file) ∈ file_type_filter ij →
     dicts st !! images = Some d →
     d !! stem (of_name file) = None →
     scan_file_with resolver images ij max dir file st
     = (set_scanned (scanned st + 1) st, inr tt))
  ∧ (∀ d ij l dir file,
       is_candidate d ij l (dir, file) = true →
       d !! stem (of_name file) = Some l)
  ∧ (∀ p q,
       Str.lower (suffix p) = Str.lower (suffix q) →
       (∀ k, has_class p k ↔ has_class q k)
       ∧ (∀ ij, Str.lower (suffix p) ∈ file_type_filter ij
                ↔ Str.lower (suffix q) ∈ file_type_filter ij)
       ∧ TYPE_PRIORITIES !! Str.lower (suffix p)
         = TYPE_PRIORITIES !! Str.lower (suffix q)
       ∧ ∀ cur st,
           same_verdict cur p q (select_preferred_path cur p st).2
             (select_preferred_path cur q st).2).
Proof.
  split; [| split].
  - intros resolver images ij max dir file st d Hb Hf Hd Hs.
    by rewrite (scan_file_unknown_stem _ _ _ _ _ _ _ d).
  - intros d ij l dir file H. unfold is_candidate in H. simpl in H.
    apply andb_true_iff in H as [_ H]. by apply bool_decide_eq_true in H.
  - intros p q Heq. fold (ext p) (ext q) in Heq |- *.
    split; [| split; [| split]].
    + intros k. unfold has_class. by rewrite Heq.
    + intros ij. by rewrite Heq.
    + by rewrite Heq.
    + intros cur st. rewrite !sel_spec. simpl. by apply sel_result_same_ext.
Qed.

Lemma C10_stems_exact_extensions_folded_witness :
  (Str.lower (stem (of_name "img_0001.XMP")) = Str.lower "IMG_0001"
   ∧ scan_file 1%positive false 100 Fixture.photos "img_0001.XMP"
       Fixture.images_template
     = (set_scanned 1 Fixture.images_template, inr tt))
  ∧ (has_class (of_name "IMG_0001.XMP") XMP ↔ has_class (of_name "IMG_0001.xmp") XMP).
Proof.
  destruct C10_stems_exact_extensions_folded as (H1 & _ & H3). split.
  - split; [reflexivity |].
    apply (H1 select_preferred_path 1%positive false 100 Fixture.photos
             "img_0001.XMP" Fixture.images_template
             {[ "IMG_0001" := 2%positive; "IMG_0002" := 3%positive;
                "IMG_0003" := 4%positive ]}).
    + simpl. lia.
    + by_eval.
    + vm_compute. reflexivity.
    + vm_compute. reflexivity.
  - apply (H3 (of_name "IMG_0001.XMP") (of_name "IMG_0001.xmp")).
    vm_compute. reflexivity.
Defined.

(** ** The scan budget *)

(** C4, as stated, fails: with five files and a budget of four the scan
    ends with the counter at five and the one message "Aborted after
    scanning 4 files.", which holds the limit and not the counter. *)
Lemma C4_count_not_reported :
  Fixture.five_files_result.2 = inl (SystemExit 1)
  ∧ scanned Fixture.five_files_result.1 = 5
  ∧ out Fixture.five_files_result.1 = [Stderr "Aborted after scanning 4 files."]
  ∧ ¬ reports_count_and_limit Fixture.five_files_result 4.
Proof.
  assert (out Fixture.five_files_result.1
          = [Stderr "Aborted after scanning 4 files."]) as Hout
    by (vm_compute; reflexivity).
  assert (scanned Fixture.five_files_result.1 = 5) as Hn
    by (vm_compute; reflexivity).
  split; [vm_compute; reflexivity |].
  split; [exact Hn |]. split; [exact Hout |].
  intros (msg & Hin & Hcount & _). rewrite Hout in Hin. rewrite Hn in Hcount.
  apply list_elem_of_singleton in Hin. injection Hin as ->.
  vm_compute in Hcount. discriminate.
Qed.

(** C4, amended. Every visited file, of whatever type and matched or not,
    adds one to the counter, so that a scan that returns has counted every
    file of the walk. With more files than the budget the scan raises, and
    its result is the result of the files up to the first one over the
    budget: no later file is examined. When the files within the budget
    raise nothing, the first one over it writes "Aborted after scanning
    [max_scan_items] files." to the error output, the limit and not the
    value of the counter, which is the limit plus one, and the scan raises
    [SystemExit] with the status 1. *)
Theorem C4_scan_budget search_dir fs images ij max st :
  0 ≤ max →
  let vs := visits (walk keep_dir search_dir fs) in
  let res := find_matching_files search_dir fs images ij max st in
  (∀ dir file s s' o,
     scan_file images ij max dir file s = (s', o) → scanned s' = scanned s + 1)
  ∧ (∀ v, res.2 = inr v → scanned res.1 = Z.of_nat (length vs))
  ∧ (max < Z.of_nat (length vs) →
     (∃ e, res.2 = inl e
           ∧ scan_visits images ij max (take (S (Z.to_nat max)) vs)
               (set_scanned 0 st) = (res.1, inl e))
     ∧ ∀ st1,
         scan_visits images ij max (take (Z.to_nat max) vs) (set_scanned 0 st)
         = (st1, inr tt) →
         res = (set_out (out st1 ++
                  [Stderr ("Aborted after scanning " +:+ pretty max
                           +:+ " files.")]) (set_scanned (max + 1) st1),
                inl (SystemExit 1))
         ∧ scanned res.1 = max + 1
         ∧ 1 ≠ 0).
Proof.
  intros Hmax vs res. split; [| split].
  - intros dir file s s' o. apply step_counts.
  - intros v Hv. unfold res, find_matching_files in *.
    rewrite find_matching_files_visits in Hv |- *.
    fold (scan_visits images ij max) in Hv |- *. fold vs in Hv |- *.
    destruct (scan_visits images ij max vs (set_scanned 0 st))
      as [st1 [e | []]] eqn:Hscan; [done |].
    apply scan_counts in Hscan as [Hn _]. simpl in Hn |- *. lia.
  - intros Hlen.
    assert (scanned (set_scanned 0 st) ≤ max) as Hle by (simpl; lia).
    assert (Z.to_nat (max - scanned (set_scanned 0 st)) < length vs)%nat
      as Hlt by (simpl; lia).
    assert (max - scanned (set_scanned 0 st) = max) as Hk by (simpl; lia).
    split.
    + destruct (scan_stops_at_budget images ij max vs _ Hle Hlt)
        as (st' & e & Hfull & Htake).
      rewrite Hk in Htake. exists e.
      unfold res, find_matching_files. rewrite find_matching_files_visits.
      fold (scan_visits images ij max). fold vs. rewrite Hfull. done.
    + intros st1 Hpre.
      assert (scan_visits images ij max
                (take (Z.to_nat (max - scanned (set_scanned 0 st))) vs)
                (set_scanned 0 st) = (st1, inr tt)) as Hpre'
        by (by rewrite Hk).
      destruct (scan_abort_at_budget images ij max vs _ st1 Hle Hlt Hpre')
        as [Hn Hfull].
      unfold res, find_matching_files. rewrite find_matching_files_visits.
      fold (scan_visits images ij max). fold vs. rewrite Hfull.
      unfold counted, abort_message. rewrite Hn. done.
Qed.

Lemma C4_scan_budget_witness :
  find_matching_files Fixture.photos Fixture.five_files 1%positive false 4
    Fixture.images_template
  = (set_out [Stderr "Aborted after scanning 4 files."]
       (set_scanned 5 Fixture.images_template), inl (SystemExit 1)).
Proof.
  pose proof (C4_scan_budget Fixture.photos Fixture.five_files 1%positive false
                4 Fixture.images_template) as H.
  destruct H as (_ & _ & H); [lia |].
  destruct H as [_ H]; [vm_compute; reflexivity |].
  destruct (H (set_scanned 4 Fixture.images_template)) as [Hres _];
    [vm_compute; reflexivity |].
  rewrite Hres. vm_compute. reflexivity.
Defined.

(** * Reading the input table *)

(** ** Strings *)









(** ** One line *)







(** ** The entries of one stem *)






(** ** The invariants of the loop *)






(** ** The loop *)

Global Instance blank_line_dec line : Decision (blank_line line).
Proof. unfold blank_line. apply _. Defined.

Global Instance well_formed_line_dec line : Decision (well_formed_line line).
Proof. unfold well_formed_line. apply _. Defined.





Lemma tsv_entries_app n (pre post : list string) :
  tsv_entries n (pre ++ post)
  = (tsv_entries n pre ++ tsv_entries (n + Z.of_nat (length pre)) post)%list.
Proof.
  revert n. induction pre as [| line pre IH]; intros n; simpl.
  - by rewrite Z.add_0_r.
  - rewrite IH, <- app_assoc. do 3 f_equal. lia.
Qed.




(** ** Distinct stems *)



(** ** The whole function *)







(** * Properties of [process_tsv_input] *)










(** * More on the resolver *)

(** What replaces a selection: an XMP candidate a RAW selection; what keeps
    it: a RAW candidate an XMP selection. *)
Lemma sel_result_replace cur new kc v :
  has_class cur kc →
  sel_result (Some cur) new = inr v →
  (kc = RAW ∧ has_class new XMP ∧ v = Some new)
  ∨ (kc = XMP ∧ has_class new RAW ∧ v = Some cur).
Proof.
  intros Hc H. destruct (class_or_not new) as [[kn Hn] | Hn].
  2: { destruct (sel_result_unavailable (Some cur) new Hn) as [msg Hm].
       congruence. }
  destruct (decide (kc = kn)) as [-> | Hne].
  { destruct (sel_result_same_rank _ _ _ Hc Hn) as [msg Hm]. congruence. }
  rewrite (sel_result_distinct _ _ _ _ Hc Hn Hne) in H.
  destruct kc, kn; simpl in H; try done; injection H as <-; eauto.
Qed.

(** X6. The resolver reads nothing of the store and writes nothing to it:
    in any two states it gives the same result and appends the same events,
    at most one, to the output, and the dicts, the records and the counter
    are as before. *)
Theorem select_preferred_path_frame cur new st1 st2 :
  ∃ evs,
    (length evs ≤ 1)%nat
    ∧ (select_preferred_path cur new st1).2 = (select_preferred_path cur new st2).2
    ∧ (select_preferred_path cur new st1).1 = set_out (out st1 ++ evs) st1
    ∧ (select_preferred_path cur new st2).1 = set_out (out st2 ++ evs) st2.
Proof.
  exists (sel_events cur new). rewrite !sel_spec. split_and!; try done.
  unfold sel_events, sel_pure.
  destruct (class_or_not new) as [[kn Hn] | Hn].
  2: { rewrite sel_unavailable by done. simpl. lia. }
  destruct cur as [cur |].
  2: { rewrite sel_first by (by eapply class_available). simpl. lia. }
  destruct (class_or_not cur) as [[kc Hc] | Hc].
  2: { rewrite sel_unknown_current by (done || by eapply class_available).
       simpl. lia. }
  destruct (decide (kc = kn)) as [-> | Hne].
  { rewrite (sel_same_rank _ _ _ _ Hc Hn). simpl. lia. }
  rewrite (sel_distinct _ _ _ _ _ Hc Hn Hne).
  destruct (_ || _); [simpl; lia |]. destruct (_ >? _); simpl; lia.
Qed.

(** X7. The order of the checks: a candidate of no recognised type is
    rejected with [ValueError] and its message, whatever the current
    selection is; with a recognised candidate, a current selection of no
    recognised type is the [KeyError] of the lookup of its lowered suffix
    in [TYPE_PRIORITIES]; in both cases nothing is written. *)
Theorem select_preferred_path_unrecognised cur new st :
  (ext new ∉ ALL_AVAILABLE_TYPES →
   select_preferred_path cur new st
   = (st, inl (ValueError ("Unavailable file type: " +:+ str new))))
  ∧ (∀ c, cur = Some c →
       ext new ∈ ALL_AVAILABLE_TYPES → ext c ∉ ALL_AVAILABLE_TYPES →
       select_preferred_path cur new st
       = (st, inl (KeyError (Str.lower (suffix c))))).
Proof.
  split.
  - intros H. by rewrite sel_unavailable.
  - intros c -> Hn Hc. by rewrite sel_unknown_current.
Qed.

Lemma select_preferred_path_unrecognised_witness :
  select_preferred_path (Some Fixture.txt_path) Fixture.raw_path Fixture.empty
  = (Fixture.empty, inl (KeyError ".txt"))
  ∧ select_preferred_path (Some Fixture.txt_path) Fixture.txt_path Fixture.empty
    = (Fixture.empty,
       inl (ValueError "Unavailable file type: wrong-type.txt")).
Proof.
  destruct (select_preferred_path_unrecognised (Some Fixture.txt_path)
              Fixture.raw_path Fixture.empty) as [_ H1].
  destruct (select_preferred_path_unrecognised (Some Fixture.txt_path)
              Fixture.txt_path Fixture.empty) as [H2 _].
  split.
  - apply (H1 Fixture.txt_path); [reflexivity | by_eval | by_eval].
  - apply H2. by_eval.
Defined.

(** X8. When the resolver returns, it returns a path, and the path is the
    candidate or the current selection; it is the candidate exactly when
    there was no selection or the candidate is an XMP file and the
    selection a RAW file. *)
Theorem select_preferred_path_returns cur new st st' v :
  select_preferred_path cur new st = (st', inr v) →
  ext new ∈ ALL_AVAILABLE_TYPES
  ∧ ((cur = None ∧ v = Some new)
     ∨ (∃ c, cur = Some c ∧ has_class c RAW ∧ has_class new XMP ∧ v = Some new)
     ∨ (∃ c, cur = Some c ∧ has_class c XMP ∧ has_class new RAW ∧ v = cur)).
Proof.
  rewrite sel_spec. intros [= _ H].
  destruct (sel_result_value _ _ _ H) as [Hn _]. split; [done |].
  destruct cur as [c |].
  2: { left. rewrite sel_result_first in H by done. split; congruence. }
  right. destruct (class_or_not c) as [[kc Hc] | Hc].
  2: { unfold sel_result, sel_pure in H.
       rewrite sel_unknown_current in H by done. done. }
  destruct (sel_result_replace _ _ _ _ Hc H) as [(-> & ? & ->) | (-> & ? & ->)];
    [left | right]; eauto.
Qed.

Lemma select_preferred_path_returns_witness :
  ext Fixture.xmp_path ∈ ALL_AVAILABLE_TYPES.
Proof.
  eapply (select_preferred_path_returns (Some Fixture.raw_path)
            Fixture.xmp_path Fixture.empty).
  vm_compute. reflexivity.
Defined.

(** * More on the scan *)

(** ** The selection a record ends with *)

Lemma track_some c k cs f :
  has_class c k →
  track (Some c) cs = inr f →
  (∃ p k', f = Some p ∧ has_class p k' ∧ (p = c ∨ p ∈ cs))
  ∧ (∀ x, x ∈ cs → has_class x XMP → f = Some x)
  ∧ (has_class c XMP → f = Some c)
  ∧ (k = RASTER → cs = [])
  ∧ (∀ x, x ∈ cs → has_class x XMP ∨ has_class x RAW).
Proof.
  revert c k. induction cs as [| q cs IH]; intros c k Hc; simpl.
  - intros [= <-]. split_and!; try done; try (by intros ? ?%elem_of_nil).
    exists c, k. eauto.
  - destruct (sel_result (Some c) q) as [e | v] eqn:Hsel; [done |]. intros Ht.
    destruct (sel_result_replace _ _ _ _ Hc Hsel)
      as [(-> & Hq & ->) | (-> & Hq & ->)].
    + destruct (IH _ _ Hq Ht) as ((p & k' & -> & Hp & Hin) & Hx & Hcx & _ & Hall).
      specialize (Hcx Hq). injection Hcx as ->. split_and!.
      * exists q, XMP. split_and!; [done | done |]. right. by left.
      * intros x [-> | Hin']%elem_of_cons Hxx; [done | by apply Hx].
      * intros Hc'. by pose proof (classes_disjoint _ _ _ Hc Hc').
      * done.
      * intros x [-> | Hin']%elem_of_cons; [by left | by apply Hall].
    + destruct (IH _ _ Hc Ht) as ((p & k' & -> & Hp & Hin) & Hx & Hcx & _ & Hall).
      specialize (Hcx Hc). injection Hcx as ->. split_and!.
      * exists c, XMP. split_and!; [done | done | by left].
      * intros x [-> | Hin']%elem_of_cons Hxx; [| by apply Hx].
        by pose proof (classes_disjoint _ _ _ Hq Hxx).
      * done.
      * done.
      * intros x [-> | Hin']%elem_of_cons; [by right | by apply Hall].
Qed.

Lemma track_none cs f :
  track None cs = inr f →
  (f = None ↔ cs = [])
  ∧ (∀ p, f = Some p → p ∈ cs)
  ∧ (∀ x, x ∈ cs → has_class x XMP → f = Some x)
  ∧ (∀ x, x ∈ cs → has_class x RASTER → cs = [x]).
Proof.
  destruct cs as [| q cs]; simpl.
  - intros [= <-]. split_and!; try done; by intros ? ?%elem_of_nil.
  - destruct (sel_result None q) as [e | v] eqn:Hsel; [done |]. intros Ht.
    destruct (sel_result_value _ _ _ Hsel) as [Hq _].
    rewrite sel_result_first in Hsel by done. injection Hsel as <-.
    apply elem_ALL_class in Hq as [k Hq].
    destruct (track_some _ _ _ _ Hq Ht)
      as ((p & k' & -> & Hp & Hin) & Hx & Hcx & Hr & Hall).
    split_and!.
    + done.
    + intros ? [= <-]. destruct Hin as [-> | Hin]; [by left | by right].
    + intros x [-> | Hin']%elem_of_cons Hxx; [| by apply Hx].
      by rewrite (Hcx Hxx).
    + intros x [-> | Hin']%elem_of_cons Hxx.
      * rewrite Hr; [done |]. by eapply classes_disjoint.
      * destruct (Hall _ Hin') as [Hy | Hy];
          by pose proof (classes_disjoint _ _ _ Hxx Hy).
Qed.

Lemma scan_result_track search_dir fs images ij max st st' v d l img :
  find_matching_files search_dir fs images ij max st = (st', inr v) →
  dicts st !! images = Some d →
  objs st !! l = Some img →
  ∃ img', objs st' !! l = Some img'
          ∧ track (found_file_path img)
              (candidates d ij l (visits (walk keep_dir search_dir fs)))
            = inr (found_file_path img').
Proof.
  intros H Hd Hl. unfold find_matching_files in H.
  rewrite find_matching_files_visits in H.
  fold (scan_visits images ij max) in H.
  destruct (scan_visits _ _ _ _ _) as [st1 [e | []]] eqn:Hscan; [done |].
  injection H as <- _.
  by apply (scan_track _ _ _ d l _ _ _ img Hscan Hd Hl).
Qed.

(** X9. In a scan that returns, a record that started without a selection
    ends without one exactly when it had no candidate, and a selection it
    ends with is one of its candidates. *)
Theorem scan_selection_is_candidate
  search_dir fs images ij max st st' v d s l img :
  find_matching_files search_dir fs images ij max st = (st', inr v) →
  dicts st !! images = Some d →
  d !! s = Some l →
  objs st !! l = Some img →
  found_file_path img = None →
  ∃ img', objs st' !! l = Some img'
    ∧ (found_file_path img' = None
       ↔ candidates d ij l (visits (walk keep_dir search_dir fs)) = [])
    ∧ ∀ p, found_file_path img' = Some p →
        p ∈ candidates d ij l (visits (walk keep_dir search_dir fs)).
Proof.
  intros H Hd _ Hl Hnone.
  destruct (scan_result_track _ _ _ _ _ _ _ _ _ _ _ H Hd Hl) as (img' & Hl' & Ht).
  rewrite Hnone in Ht. apply track_none in Ht as (H1 & H2 & _).
  by exists img'.
Qed.

Lemma scan_selection_is_candidate_witness :
  ∃ img',
    objs TsvFixture.standard_result.1 !! 4%positive = Some img'
    ∧ (found_file_path img' = None
       ↔ candidates TsvFixture.table false 4%positive
           (visits (walk keep_dir Fixture.photos Fixture.standard_tree)) = [])
    ∧ ∀ p, found_file_path img' = Some p →
        p ∈ candidates TsvFixture.table false 4%positive
              (visits (walk keep_dir Fixture.photos Fixture.standard_tree)).
Proof.
  eapply (scan_selection_is_candidate Fixture.photos Fixture.standard_tree
            1%positive false 100 Fixture.images_template _ 1%positive
            TsvFixture.table "IMG_0003" 4%positive).
  - vm_compute. reflexivity.
  - vm_compute. reflexivity.
  - vm_compute. reflexivity.
  - vm_compute. reflexivity.
  - reflexivity.
Defined.

(** X10. In a scan that returns, a record that started without a selection
    ends with its XMP candidate when it has one, so that it has at most
    one; and a raster candidate of the record is its only candidate. *)
Theorem scan_xmp_wins_raster_alone
  search_dir fs images ij max st st' v d s l img :
  find_matching_files search_dir fs images ij max st = (st', inr v) →
  dicts st !! images = Some d →
  d !! s = Some l →
  objs st !! l = Some img →
  found_file_path img = None →
  ∃ img', objs st' !! l = Some img'
    ∧ (∀ x, x ∈ candidates d ij l (visits (walk keep_dir search_dir fs)) →
            has_class x XMP → found_file_path img' = Some x)
    ∧ (∀ x y, x ∈ candidates d ij l (visits (walk keep_dir search_dir fs)) →
              y ∈ candidates d ij l (visits (walk keep_dir search_dir fs)) →
              has_class x XMP → has_class y XMP → x = y)
    ∧ (∀ x, x ∈ candidates d ij l (visits (walk keep_dir search_dir fs)) →
            has_class x RASTER →
            candidates d ij l (visits (walk keep_dir search_dir fs)) = [x]).
Proof.
  intros H Hd _ Hl Hnone.
  destruct (scan_result_track _ _ _ _ _ _ _ _ _ _ _ H Hd Hl) as (img' & Hl' & Ht).
  rewrite Hnone in Ht. apply track_none in Ht as (_ & _ & Hx & Hr).
  exists img'. split_and!; try done.
  intros x y Hxin Hyin Hxx Hyy.
  pose proof (Hx _ Hxin Hxx). pose proof (Hx _ Hyin Hyy). congruence.
Qed.

Lemma scan_xmp_wins_raster_alone_witness :
  ∃ img',
    objs TsvFixture.standard_result.1 !! 2%positive = Some img'
    ∧ found_file_path img'
      = Some (Fixture.photos // "Selects" // "IMG_0001.XMP").
Proof.
  destruct (scan_xmp_wins_raster_alone Fixture.photos Fixture.standard_tree
              1%positive false 100 Fixture.images_template
              TsvFixture.standard_result.1 1%positive
              TsvFixture.table "IMG_0001" 2%positive
              (mkImage 1 (of_name "IMG_0001.ARW") "Description for 01 arw" None))
    as (img' & Hl & Hx & _).
  - vm_compute. reflexivity.
  - vm_compute. reflexivity.
  - vm_compute. reflexivity.
  - vm_compute. reflexivity.
  - reflexivity.
  - exists img'. split; [exact Hl |]. apply Hx; by_eval.
Defined.

(** ** Selections only advance *)

Lemma sel_result_known_current c new v :
  sel_result (Some c) new = inr v → ∃ k, has_class c k.
Proof.
  intros H. destruct (class_or_not c) as [Hc | Hc]; [done |].
  destruct (sel_result_value _ _ _ H) as [Hn _].
  unfold sel_result, sel_pure in H.
  rewrite sel_unknown_current in H by done. done.
Qed.

Global Instance selection_after_refl : Reflexive selection_after.
Proof. intros f. by left. Qed.

Lemma selection_after_trans f1 f2 f3 :
  selection_after f1 f2 → selection_after f2 f3 → selection_after f1 f3.
Proof.
  intros [-> | (c & p & -> & -> & Hc & Hp)] [-> | (c' & p' & Heq & -> & Hc' & Hp')].
  - by left.
  - right. eauto 10.
  - right. eauto 10.
  - injection Heq as <-. by pose proof (classes_disjoint _ _ _ Hp Hc').
Qed.

Lemma selection_after_some c f : selection_after (Some c) f → is_Some f.
Proof. intros [-> | (? & ? & _ & -> & _)]; eauto. Qed.

Global Instance record_advances_refl l : Reflexive (record_advances l).
Proof. intros st img c Hl Hc. exists img. split; [done | reflexivity]. Qed.

Global Instance record_advances_trans l : Transitive (record_advances l).
Proof.
  intros a b c Hab Hbc img x Hl Hx.
  destruct (Hab _ _ Hl Hx) as (img1 & Hl1 & H1).
  rewrite Hx in H1. destruct (selection_after_some _ _ H1) as [y Hy].
  destruct (Hbc _ _ Hl1 Hy) as (img2 & Hl2 & H2).
  exists img2. split; [done |]. rewrite Hx. by eapply selection_after_trans.
Qed.

Lemma step_advances images ij max dir file l st st' r :
  scan_file images ij max dir file st = (st', r) → record_advances l st st'.
Proof.
  intros H. pose proof (scan_file_cases images ij max dir file st) as Hc.
  rewrite H in Hc. inversion Hc; subst; try reflexivity;
    try (intros img0 c0 Hl0 Hc0; exists img0; split; [done | reflexivity]).
  intros img' c Hl' Hc'. simpl.
  destruct (decide (l0 = l)) as [-> | Hne].
  2: { rewrite lookup_insert_ne by done. exists img'. split; [done | reflexivity]. }
  rewrite lookup_insert_eq. eexists. split; [done |]. simpl.
  assert (img = img') as -> by congruence. rewrite Hc'.
  match goal with Hs : sel_result _ _ = inr _ |- _ => rewrite Hc' in Hs;
    destruct (sel_result_known_current _ _ _ Hs) as [k Hk];
    destruct (sel_result_replace _ _ _ _ Hk Hs)
      as [(-> & Hn & ->) | (-> & Hn & ->)] end.
  - right. eauto 10.
  - by left.
Qed.

(** X11. Whatever ends the scan, a record that had a selection has one
    afterwards, and it is the same selection or an XMP file in the place of
    a RAW file: a selection is never cleared, an XMP or raster selection is
    never replaced, and a RAW selection is replaced by an XMP file only. *)
Theorem scan_selections_advance
  search_dir fs images ij max st st' r l img c :
  find_matching_files search_dir fs images ij max st = (st', r) →
  objs st !! l = Some img →
  found_file_path img = Some c →
  ∃ img' p,
    objs st' !! l = Some img'
    ∧ found_file_path img' = Some p
    ∧ (p = c ∨ (has_class c RAW ∧ has_class p XMP))
    ∧ (¬ has_class c RAW → p = c).
Proof.
  intros H Hl Hc. unfold find_matching_files in H.
  rewrite find_matching_files_visits in H.
  fold (scan_visits images ij max) in H.
  destruct (scan_visits _ _ _ _ _) as [st1 r1] eqn:Hscan.
  assert (st1 = st') as -> by (destruct r1; congruence).
  assert (record_advances l (set_scanned 0 st) st') as Hadv.
  { eapply (for_invariant (record_advances l)); [apply _ | apply _ | | exact Hscan].
    intros v s s' r' _. apply step_advances. }
  destruct (Hadv img c Hl Hc) as (img' & Hl' & Hsel). rewrite Hc in Hsel.
  destruct Hsel as [Heq | (c' & p & [= <-] & Hp & Hraw & Hxmp)].
  - exists img', c. split_and!; auto.
  - exists img', p. split_and!; auto. intros Hn. by destruct Hn.
Qed.

Lemma scan_selections_advance_witness :
  ∃ st2 img' p,
    find_matching_files Fixture.photos Fixture.standard_tree 1%positive false
      100 TsvFixture.standard_result.1 = (st2, inl (ValueError
        (same_rank_message (Fixture.photos // "Selects" // "IMG_0001.XMP")
           (Fixture.photos // "Selects" // "IMG_0001.XMP"))))
    ∧ objs st2 !! 2%positive = Some img'
    ∧ found_file_path img' = Some p
    ∧ p = Fixture.photos // "Selects" // "IMG_0001.XMP".
Proof.
  destruct (scan_selections_advance Fixture.photos Fixture.standard_tree
              1%positive false 100 TsvFixture.standard_result.1
              (find_matching_files Fixture.photos Fixture.standard_tree
                 1%positive false 100 TsvFixture.standard_result.1).1
              (inl (ValueError
                 (same_rank_message
                    (Fixture.photos // "Selects" // "IMG_0001.XMP")
                    (Fixture.photos // "Selects" // "IMG_0001.XMP"))))
              2%positive
              (mkImage 1 (of_name "IMG_0001.ARW") "Description for 01 arw"
                 (Some (Fixture.photos // "Selects" // "IMG_0001.XMP")))
              (Fixture.photos // "Selects" // "IMG_0001.XMP"))
    as (img' & p & Hl & Hp & _ & Hkeep).
  - vm_compute. reflexivity.
  - vm_compute. reflexivity.
  - reflexivity.
  - eexists _, img', p. split_and!; [| exact Hl | exact Hp |].
    + vm_compute. reflexivity.
    + apply Hkeep. by_eval.
Defined.

(** ** When the scan returns *)

Lemma candidates_cons_true d ij l (v : Path * string) vs :
  is_candidate d ij l v = true →
  candidates d ij l (v :: vs) = (v.1 // v.2) :: candidates d ij l vs.
Proof. intros H. unfold candidates. simpl. by rewrite H. Qed.

Lemma candidates_cons_false d ij l (v : Path * string) vs :
  is_candidate d ij l v = false →
  candidates d ij l (v :: vs) = candidates d ij l vs.
Proof. intros H. unfold candidates. simpl. by rewrite H. Qed.

Lemma scan_complete images ij max d vs : ∀ st,
  table_ok images st d →
  scanned st + Z.of_nat (length vs) ≤ max →
  (∀ s l img, d !! s = Some l → objs st !! l = Some img →
     ∃ f, track (found_file_path img) (candidates d ij l vs) = inr f) →
  ∃ st', scan_visits images ij max vs st = (st', inr tt).
Proof.
  unfold scan_visits, scan_visits_with.
  induction vs as [| [dir file] vs IH]; intros st [Hd Hok] Hb Htrack; simpl.
  - eauto.
  - unfold bind. fold (scan_file images ij max dir file).
    simpl in Hb.
    assert (scanned st + 1 ≤ max) as Hb1 by lia.
    assert (∃ st1, scan_file images ij max dir file st = (st1, inr tt)
                   ∧ table_ok images st1 d
                   ∧ scanned st1 = scanned st + 1
                   ∧ ∀ s l img, d !! s = Some l → objs st1 !! l = Some img →
                       ∃ f, track (found_file_path img) (candidates d ij l vs)
                            = inr f) as (st1 & -> & Hok1 & Hn1 & Htrack1).
    { destruct (decide (ext (of_name file) ∈ file_type_filter ij)) as [Hf | Hf].
      2: { eexists. split; [by apply scan_file_filtered |].
           split_and!; [done | done |]. simpl. intros s l img Hsl Hl.
           destruct (Htrack _ _ _ Hsl Hl) as [f Hf'].
           rewrite candidates_cons_false in Hf'; [eauto |].
           unfold is_candidate. simpl. by rewrite bool_decide_eq_false_2. }
      destruct (d !! stem (of_name file)) as [l0 |] eqn:Hs.
      2: { eexists. split; [by eapply scan_file_unknown_stem |].
           split_and!; [done | done |]. simpl. intros s l img Hsl Hl.
           destruct (Htrack _ _ _ Hsl Hl) as [f Hf'].
           rewrite candidates_cons_false in Hf'; [eauto |].
           unfold is_candidate. simpl.
           rewrite (bool_decide_eq_false_2 (d !! _ = Some l)) by congruence.
           apply andb_false_r. }
      destruct (Hok _ _ Hs) as [img0 Hl0].
      destruct (Htrack _ _ _ Hs Hl0) as [f0 Hf0].
      rewrite candidates_cons_true in Hf0
        by (unfold is_candidate; simpl; by rewrite !bool_decide_eq_true_2).
      simpl in Hf0.
      destruct (sel_result (found_file_path img0) (dir // file))
        as [e | chosen] eqn:Hsel; [done |].
      eexists. split.
      { rewrite (scan_file_match _ _ _ _ _ _ d l0) by done.
        rewrite Hl0. simpl. by rewrite Hsel. }
      split_and!.
      - split; [done |]. simpl. intros s l Hsl.
        destruct (decide (l0 = l)) as [<- | Hne].
        + rewrite lookup_insert_eq. eauto.
        + rewrite lookup_insert_ne by done. by eapply Hok.
      - done.
      - simpl. intros s l img Hsl. destruct (decide (l0 = l)) as [<- | Hne].
        + rewrite lookup_insert_eq. intros [= <-]. simpl. eauto.
        + rewrite lookup_insert_ne by done. intros Hl.
          destruct (Htrack _ _ _ Hsl Hl) as [f Hf'].
          rewrite candidates_cons_false in Hf'; [eauto |].
          unfold is_candidate. simpl.
          rewrite (bool_decide_eq_false_2 (d !! _ = Some l)) by congruence.
          apply andb_false_r. }
    apply IH; [done | lia | done].
Qed.

(** X12. With a table the scan can read, the scan returns exactly when the
    visited files are within the budget and, for every record of the table,
    the resolver accepts its candidates one after the other from the
    selection the record has. *)
Theorem scan_returns_iff search_dir fs images ij max st d :
  0 ≤ max →
  table_ok images st d →
  (∃ st' v, find_matching_files search_dir fs images ij max st = (st', inr v))
  ↔ Z.of_nat (length (visits (walk keep_dir search_dir fs))) ≤ max
    ∧ ∀ s l img, d !! s = Some l → objs st !! l = Some img →
        ∃ f, track (found_file_path img)
               (candidates d ij l (visits (walk keep_dir search_dir fs)))
             = inr f.
Proof.
  intros Hmax [Hd Hok]. unfold find_matching_files.
  rewrite find_matching_files_visits. fold (scan_visits images ij max).
  split.
  - intros (st' & v & H).
    destruct (scan_visits _ _ _ _ _) as [st1 [e | []]] eqn:Hscan; [done |].
    split.
    + apply scan_counts in Hscan as [Hn Hle]. simpl in Hn.
      destruct (visits (walk keep_dir search_dir fs)) as [| x xs] eqn:Hvs;
        [simpl; lia |].
      specialize (Hle ltac:(done)). lia.
    + intros s l img _ Hl.
      destruct (scan_track _ _ _ d l _ _ _ img Hscan Hd Hl) as (img' & _ & Ht).
      eauto.
  - intros [Hlen Htrack].
    destruct (scan_complete images ij max d
                (visits (walk keep_dir search_dir fs)) (set_scanned 0 st))
      as [st' Hrun]; [done | simpl; lia | done |].
    rewrite Hrun. eauto.
Qed.

Lemma scan_returns_iff_witness :
  (∃ st' v,
     find_matching_files Fixture.photos Fixture.standard_tree 1%positive false
       100 Fixture.images_template = (st', inr v))
  ∧ ¬ ∃ st' v,
        find_matching_files Fixture.photos TsvFixture.xmp_last 1%positive false
          100 Fixture.images_template = (st', inr v).
Proof.
  assert (table_ok 1%positive Fixture.images_template TsvFixture.table) as Hok.
  { split; [vm_compute; reflexivity |].
    change (map_Forall (λ _ l, is_Some (objs Fixture.images_template !! l))
              TsvFixture.table). by_eval. }
  split.
  - apply (scan_returns_iff Fixture.photos Fixture.standard_tree 1%positive
             false 100 Fixture.images_template TsvFixture.table);
      [lia | exact Hok |].
    split; [vm_compute; discriminate |].
    intros s l img Hs Hl. unfold TsvFixture.table in Hs.
    apply lookup_insert_Some in Hs as [[_ <-] | [_ Hs]];
      [| apply lookup_insert_Some in Hs as [[_ <-] | [_ Hs]];
         [| apply lookup_singleton_Some in Hs as [_ <-]]];
      vm_compute in Hl; injection Hl as <-; eexists; vm_compute; reflexivity.
  - intros H.
    apply (scan_returns_iff Fixture.photos TsvFixture.xmp_last 1%positive
             false 100 Fixture.images_template TsvFixture.table) in H
      as [_ H]; [| lia | exact Hok].
    destruct (H "IMG_0001" 2%positive
                (mkImage 1 (of_name "IMG_0001.ARW") "Description for 01 arw" None))
      as [f Hf]; [vm_compute; reflexivity | vm_compute; reflexivity |].
    vm_compute in Hf. discriminate.
Defined.

(** ** The order of the candidates *)

Lemma track_xmp_then_raw x raws :
  has_class x XMP → Forall (λ r, has_class r RAW) raws →
  track (Some x) raws = inr (Some x).
Proof.
  intros Hx. induction 1 as [| r raws Hr _ IH]; simpl; [done |].
  rewrite (sel_result_distinct _ _ _ _ Hx Hr) by done. simpl. exact IH.
Qed.

Lemma track_xmp_all_raw c cs f :
  has_class c XMP → track (Some c) cs = inr f →
  Forall (λ r, has_class r RAW) cs.
Proof.
  intros Hc. induction cs as [| q cs IH]; simpl; [by constructor |].
  destruct (sel_result (Some c) q) as [e | v] eqn:Hsel; [done |]. intros Ht.
  destruct (sel_result_replace _ _ _ _ Hc Hsel) as [(? & _) | (_ & Hq & ->)];
    [done |].
  constructor; [done | by apply IH].
Qed.

Lemma find_matching_files_raises search_dir fs images ij max st d l img e :
  dicts st !! images = Some d →
  objs st !! l = Some img →
  track (found_file_path img)
    (candidates d ij l (visits (walk keep_dir search_dir fs))) = inl e →
  ∃ st' e', find_matching_files search_dir fs images ij max st = (st', inl e').
Proof.
  intros Hd Hl Ht.
  destruct (find_matching_files search_dir fs images ij max st)
    as [st' [e' | v]] eqn:H; [eauto |].
  destruct (scan_result_track _ _ _ _ _ _ _ _ _ _ _ H Hd Hl) as (? & _ & Ht').
  congruence.
Qed.

(** X13. Whether two RAW files of one stem are an error depends on where
    the XMP file of the stem is met. When the candidates of a record that
    has no selection are an XMP file followed by RAW files, however many,
    and no other record has a candidate, the scan of a readable table
    within the budget returns with the XMP file selected. When the
    candidates of such a record begin with two RAW files, the scan raises. *)
Theorem raw_duplicates_depend_on_order
  search_dir fs images ij max st d s l img :
  dicts st !! images = Some d →
  d !! s = Some l →
  objs st !! l = Some img →
  found_file_path img = None →
  (∀ x raws,
     0 ≤ max →
     Z.of_nat (length (visits (walk keep_dir search_dir fs))) ≤ max →
     (∀ s' l', d !! s' = Some l' → is_Some (objs st !! l')) →
     (∀ s' l', d !! s' = Some l' → l' ≠ l →
        candidates d ij l' (visits (walk keep_dir search_dir fs)) = []) →
     candidates d ij l (visits (walk keep_dir search_dir fs)) = x :: raws →
     has_class x XMP → Forall (λ r, has_class r RAW) raws →
     ∃ st' v img',
       find_matching_files search_dir fs images ij max st = (st', inr v)
       ∧ objs st' !! l = Some img'
       ∧ found_file_path img' = Some x)
  ∧ (∀ r1 r2 rest,
       candidates d ij l (visits (walk keep_dir search_dir fs))
       = r1 :: r2 :: rest →
       has_class r1 RAW → has_class r2 RAW →
       ∃ st' e,
         find_matching_files search_dir fs images ij max st = (st', inl e)).
Proof.
  intros Hd Hs Hl Hnone. split.
  - intros x raws Hmax Hlen Hok Hothers Hcs Hx Hraws.
    assert (track None (x :: raws) = inr (Some x)) as Ht.
    { rewrite track_first by (by eapply class_available).
      by apply track_xmp_then_raw. }
    destruct (proj2 (scan_returns_iff search_dir fs images ij max st d Hmax
                       (conj Hd Hok))) as (st' & v & Hrun).
    { split; [done |]. intros s' l' img' Hs' Hl'.
      destruct (decide (l' = l)) as [-> | Hne].
      - assert (img' = img) as -> by congruence.
        rewrite Hnone, Hcs. eauto.
      - rewrite (Hothers _ _ Hs' Hne). simpl. eauto. }
    destruct (scan_result_track _ _ _ _ _ _ _ _ _ _ _ Hrun Hd Hl)
      as (img' & Hl' & Ht').
    rewrite Hnone, Hcs, Ht in Ht'. exists st', v, img'.
    split_and!; [done | done | congruence].
  - intros r1 r2 rest Hcs H1 H2.
    destruct (sel_result_same_rank _ _ _ H1 H2) as [msg Hm].
    eapply (find_matching_files_raises _ _ _ _ _ _ d l img); [done | done |].
    rewrite Hnone, Hcs. rewrite track_first by (by eapply class_available).
    simpl. by rewrite Hm.
Qed.

Lemma raw_duplicates_depend_on_order_witness :
  (∃ st' v img',
     find_matching_files Fixture.photos TsvFixture.xmp_first 1%positive false
       100 Fixture.images_template = (st', inr v)
     ∧ objs st' !! 2%positive = Some img'
     ∧ found_file_path img' = Some (Fixture.photos // "IMG_0001.XMP"))
  ∧ (∃ st' e,
       find_matching_files Fixture.photos TsvFixture.xmp_last 1%positive false
         100 Fixture.images_template = (st', inl e)).
Proof.
  split.
  - destruct (raw_duplicates_depend_on_order Fixture.photos
                TsvFixture.xmp_first 1%positive false 100
                Fixture.images_template TsvFixture.table "IMG_0001" 2%positive
                (mkImage 1 (of_name "IMG_0001.ARW") "Description for 01 arw" None))
      as [H _]; try (vm_compute; reflexivity).
    apply (H (Fixture.photos // "IMG_0001.XMP")
             [Fixture.photos // "IMG_0001.ARW"; Fixture.photos // "IMG_0001.DNG"]).
    + lia.
    + vm_compute. discriminate.
    + intros s l Hs. unfold TsvFixture.table in Hs.
      apply lookup_insert_Some in Hs as [[_ <-] | [_ Hs]];
        [| apply lookup_insert_Some in Hs as [[_ <-] | [_ Hs]];
           [| apply lookup_singleton_Some in Hs as [_ <-]]];
        vm_compute; eauto.
    + intros s l Hs Hne. unfold TsvFixture.table in Hs.
      apply lookup_insert_Some in Hs as [[_ <-] | [_ Hs]];
        [done | apply lookup_insert_Some in Hs as [[_ <-] | [_ Hs]];
           [| apply lookup_singleton_Some in Hs as [_ <-]]];
        vm_compute; reflexivity.
    + vm_compute. reflexivity.
    + by_eval.
    + by_eval.
  - destruct (raw_duplicates_depend_on_order Fixture.photos
                TsvFixture.xmp_last 1%positive false 100
                Fixture.images_template TsvFixture.table "IMG_0001" 2%positive
                (mkImage 1 (of_name "IMG_0001.ARW") "Description for 01 arw" None))
      as [_ H]; try (vm_compute; reflexivity).
    apply (H (Fixture.photos // "IMG_0001.ARW") (Fixture.photos // "IMG_0001.DNG")
             [Fixture.photos // "IMG_0001.XMP"]).
    + vm_compute. reflexivity.
    + by_eval.
    + by_eval.
Defined.

(** ** The budget *)

Lemma scan_file_budget resolver images ij max max' dir file st :
  scanned st + 1 ≤ max → scanned st + 1 ≤ max' →
  scan_file_with resolver images ij max dir file st
  = scan_file_with resolver images ij max' dir file st.
Proof.
  intros H H'. unfold scan_file_with, bind. simpl.
  by rewrite (gtb_false _ _ H), (gtb_false _ _ H').
Qed.

Lemma scan_visits_budget images ij max max' vs : ∀ st,
  scanned st + Z.of_nat (length vs) ≤ max →
  scanned st + Z.of_nat (length vs) ≤ max' →
  scan_visits images ij max vs st = scan_visits images ij max' vs st.
Proof.
  unfold scan_visits, scan_visits_with.
  induction vs as [| [dir file] vs IH]; intros st H H'; simpl; [done |].
  simpl in H, H'. unfold bind.
  rewrite (scan_file_budget _ _ _ max max') by lia.
  fold (scan_file images ij max' dir file).
  destruct (scan_file images ij max' dir file st) as [st1 [e | []]] eqn:Hx;
    [done |].
  apply step_counts in Hx. apply IH; lia.
Qed.

(** X14. A budget that the visited files do not exceed has no effect: with
    any two such budgets the scan ends in the same state with the same
    result. *)
Theorem budget_not_exceeded_is_irrelevant
  search_dir fs images ij max max' st :
  Z.of_nat (length (visits (walk keep_dir search_dir fs))) ≤ max →
  Z.of_nat (length (visits (walk keep_dir search_dir fs))) ≤ max' →
  find_matching_files search_dir fs images ij max st
  = find_matching_files search_dir fs images ij max' st.
Proof.
  intros H H'. unfold find_matching_files.
  rewrite !find_matching_files_visits. fold (scan_visits images ij max).
  fold (scan_visits images ij max').
  by rewrite (scan_visits_budget _ _ max max') by (simpl; lia).
Qed.

Lemma budget_not_exceeded_is_irrelevant_witness :
  find_matching_files Fixture.photos Fixture.standard_tree 1%positive false 4
    Fixture.images_template
  = find_matching_files Fixture.photos Fixture.standard_tree 1%positive false
      30000 Fixture.images_template.
Proof.
  apply budget_not_exceeded_is_irrelevant; vm_compute; discriminate.
Defined.

(** ** A second scan *)

Lemma track_again cs p f :
  track None cs = inr (Some p) → track (Some p) cs = inr f → False.
Proof.
  destruct cs as [| q cs]; simpl; [done |].
  destruct (sel_result None q) as [e | v] eqn:Hsel; [done |]. intros H1.
  destruct (sel_result_value _ _ _ Hsel) as [Hq _].
  rewrite sel_result_first in Hsel by done. injection Hsel as <-.
  apply elem_ALL_class in Hq as [kq Hq].
  destruct (track_some _ _ _ _ Hq H1) as ((p' & kp & [= <-] & Hp & Hin) & _ & Hqx & _).
  destruct (sel_result (Some p) q) as [e | v] eqn:Hsel2; [done |]. intros H2.
  destruct (sel_result_replace _ _ _ _ Hp Hsel2)
    as [(-> & Hqxmp & ->) | (-> & Hqraw & ->)].
  - specialize (Hqx Hqxmp). injection Hqx as ->.
    by pose proof (classes_disjoint _ _ _ Hp Hqxmp).
  - destruct Hin as [-> | Hin].
    + by pose proof (classes_disjoint _ _ _ Hp Hqraw).
    + pose proof (track_xmp_all_raw _ _ _ Hp H2) as Hall.
      rewrite Forall_forall in Hall. specialize (Hall _ Hin).
      by pose proof (classes_disjoint _ _ _ Hp Hall).
Qed.

(** X15. A table is scanned once: after a scan that returned and gave a
    record that had no selection one of its candidates, the same scan of
    the table as it now is does not return, because the selection meets
    itself among the candidates. *)
Theorem second_scan_raises search_dir fs images ij max st st1 v d s l img :
  find_matching_files search_dir fs images ij max st = (st1, inr v) →
  dicts st !! images = Some d →
  d !! s = Some l →
  objs st !! l = Some img →
  found_file_path img = None →
  candidates d ij l (visits (walk keep_dir search_dir fs)) ≠ [] →
  ∃ st2 e, find_matching_files search_dir fs images ij max st1 = (st2, inl e).
Proof.
  intros H Hd _ Hl Hnone Hne.
  destruct (scan_result_track _ _ _ _ _ _ _ _ _ _ _ H Hd Hl) as (img1 & Hl1 & Ht).
  rewrite Hnone in Ht.
  destruct (track_none _ _ Ht) as (Hnil & _).
  destruct (found_file_path img1) as [p |] eqn:Hp; [| by destruct Hne; apply Hnil].
  assert (dicts st1 !! images = Some d) as Hd1.
  { unfold find_matching_files in H. rewrite find_matching_files_visits in H.
    fold (scan_visits images ij max) in H.
    destruct (scan_visits _ _ _ _ _) as [st' [e | []]] eqn:Hscan; [done |].
    injection H as <- _. apply scan_frame in Hscan as [-> _]. done. }
  destruct (find_matching_files search_dir fs images ij max st1)
    as [st2 [e | v2]] eqn:H2; [eauto |].
  destruct (scan_result_track _ _ _ _ _ _ _ _ _ _ _ H2 Hd1 Hl1) as (img2 & _ & Ht2).
  rewrite Hp in Ht2. by destruct (track_again _ _ _ Ht Ht2).
Qed.

Lemma second_scan_raises_witness :
  ∃ st2 e,
    find_matching_files Fixture.photos Fixture.standard_tree 1%positive false
      100 TsvFixture.standard_result.1 = (st2, inl e).
Proof.
  eapply (second_scan_raises Fixture.photos Fixture.standard_tree 1%positive
            false 100 Fixture.images_template TsvFixture.standard_result.1
            1%positive TsvFixture.table "IMG_0002" 3%positive).
  - vm_compute. reflexivity.
  - vm_compute. reflexivity.
  - vm_compute. reflexivity.
  - vm_compute. reflexivity.
  - reflexivity.
  - vm_compute. discriminate.
Defined.

(** * Reading the table, then scanning *)




(** * The tests of the repository, replayed on the embedding *)

Module Tests.

Import Fixture.

(** [test_first_instance_of_stem] *)
Example test_first_instance_of_stem :
  (select_preferred_path None raw_path empty).2 = inr (Some raw_path)
  ∧ (select_preferred_path None xmp_path empty).2 = inr (Some xmp_path)
  ∧ (select_preferred_path None jpg_path empty).2 = inr (Some jpg_path).
Proof. repeat split; vm_compute; reflexivity. Qed.

(** [test_unsupported_file_type] *)
Example test_unsupported_file_type :
  (select_preferred_path None txt_path empty).2
  = inl (ValueError "Unavailable file type: wrong-type.txt").
Proof. vm_compute. reflexivity. Qed.

(** [test_duplicates_of_same_type] *)
Example test_duplicates_of_same_type :
  ∃ msg, (select_preferred_path (Some jpg_path) heic_path empty).2
         = inl (ValueError msg)
         ∧ Str.is_prefix "Comparing two files of same rank" msg = true.
Proof. eexists. split; vm_compute; reflexivity. Qed.

(** [test_raw_vs_xmp] and [test_xmp_vs_raw] *)
Example test_raw_vs_xmp :
  (select_preferred_path (Some raw_path) xmp_path empty).2 = inr (Some xmp_path)
  ∧ (select_preferred_path (Some xmp_path) raw_path empty).2
    = inr (Some xmp_path).
Proof. split; vm_compute; reflexivity. Qed.

(** [test_raw_vs_jpg], [test_jpg_vs_raw], [test_xmp_vs_jpg] and
    [test_jpg_vs_xmp] *)
Example test_jpg_conflicts :
  Forall (λ '(cur, new),
            (select_preferred_path (Some cur) new empty).2 = inl (SystemExit 1)
            ∧ ∃ msg, out (select_preferred_path (Some cur) new empty).1
                     = [Stderr msg]
                     ∧ Str.is_prefix "Found both a jpg type and raw/xmp type"
                         msg = true)
    [(raw_path, jpg_path); (jpg_path, raw_path);
     (xmp_path, jpg_path); (jpg_path, xmp_path)].
Proof.
  repeat constructor; try (vm_compute; reflexivity);
    eexists; split; vm_compute; reflexivity.
Qed.

(** [test_standard_matching] *)
Example test_standard_matching :
  let res := find_matching_files photos standard_tree 1%positive false 100
               images_template in
  res.2 = inr 1%positive
  ∧ (found_file_path <$> objs res.1 !! 2%positive)
    = Some (Some (photos // "Selects" // "IMG_0001.XMP"))
  ∧ (found_file_path <$> objs res.1 !! 3%positive)
    = Some (Some (photos // "Selects" // "IMG_0002.JPG")).
Proof. repeat split; vm_compute; reflexivity. Qed.

(** [test_max_scan_items] *)
Example test_max_scan_items :
  let res := find_matching_files photos five_files 1%positive false 4
               images_template in
  res.2 = inl (SystemExit 1)
  ∧ Stderr "Aborted after scanning 4 files." ∈ out res.1.
Proof. split; [vm_compute; reflexivity |]. vm_compute. left. Qed.

(** [test_skip_captureone_dirs] *)
Example test_skip_captureone_dirs :
  let res := find_matching_files photos captureone_tree 1%positive false 100
               images_template in
  (found_file_path <$> objs res.1 !! 2%positive)
  = Some (Some (photos // "IMG_0001.ARW"))
  ∧ (found_file_path <$> objs res.1 !! 3%positive) = Some None.
Proof. split; vm_compute; reflexivity. Qed.

(** [test_file_type_filter] *)
Example test_file_type_filter :
  let res := find_matching_files photos (Dir ["IMG_0001.txt"] []) 1%positive
               false 100 images_template in
  (found_file_path <$> objs res.1 !! 2%positive) = Some None
  ∧ out res.1 = [Stdout "Skipping unavailable type IMG_0001.txt"].
Proof. split; vm_compute; reflexivity. Qed.

(** [test_ignore_jpgs] *)
Example test_ignore_jpgs :
  let res := find_matching_files photos (Dir ["IMG_0002.JPG"] []) 1%positive
               true 100 images_template in
  (found_file_path <$> objs res.1 !! 3%positive) = Some None.
Proof. vm_compute. reflexivity. Qed.

(** [test_return_variable_structure] *)
Example test_return_variable_structure :
  let res := find_matching_files photos (Dir ["IMG_0001.XMP"] []) 1%positive
               false 100 images_template in
  res.2 = inr 1%positive
  ∧ dicts res.1 = dicts images_template
  ∧ objs res.1
    = <[ 2%positive := mkImage 1 (of_name "IMG_0001.ARW")
                         "Description for 01 arw"
                         (Some (photos // "IMG_0001.XMP")) ]>
        (objs images_template).
Proof. repeat split; vm_compute; reflexivity. Qed.

(** [test_valid_input_single_line] and [test_input_blank_lines] *)
Example test_input_blank_lines :
  let res := process_tsv_input TsvFixture.blank_lines empty in
  res.2 = inr 1%positive
  ∧ dicts res.1 !! 1%positive = Some {[ "IMG_0001" := 2%positive ]}
  ∧ objs res.1 !! 2%positive
    = Some (mkImage 2 (of_name "IMG_0001.ARW") "Description" None).
Proof. repeat split; vm_compute; reflexivity. Qed.

(** [test_input_missing_tabs] and [test_input_extra_fields] *)
Example test_input_missing_tabs :
  (∃ msg, (process_tsv_input [TsvFixture.missing_tab] empty).2
          = inl (ValueError msg))
  ∧ ∃ msg, (process_tsv_input
              [TsvFixture.row "IMG_0001.ARW"
                 (TsvFixture.row "Description" "Extra column")] empty).2
           = inl (ValueError msg).
Proof. split; eexists; vm_compute; reflexivity. Qed.

(** [test_input_abort_on_duplicate_file_stems] and
    [test_input_list_all_duplicate_file_stems] *)
Example test_input_list_all_duplicate_file_stems :
  let res := process_tsv_input TsvFixture.duplicate_lines empty in
  res.2 = inl (SystemExit 1)
  ∧ out res.1
    = [Stderr "Duplicate file stems found for the following filenames:";
       Stderr "  1: IMG_0001.ARW"; Stderr "  4: IMG_0001.JPG";
       Stderr "  2: IMG_0002.JPG"; Stderr "  5: IMG_0002.ARW";
       Stderr "  6: IMG_0002.XMP";
       Stderr "Filenames, excluding file type, must be unique."].
Proof. split; vm_compute; reflexivity. Qed.

End Tests.
